(** * react_movie: the search controller, the catalog query and the
      search-analytics store client

    A shallow embedding of the component [App] (its state cells,
    [fetchMovies], [loadTrendingMovies], its effects and what it renders)
    and of [appwrite.js] ([updateSearchCount], [getTrendingMovies]).

    Conventions of the embedding:
    - JavaScript strings are [string]s holding the UTF-8 bytes of a
      well-formed text, the form in which [encodeURIComponent] reads them;
    - an [async] function is a computation in the monad [M]: it reads the
      environment (what the network and the store answer), updates the
      [World] and completes normally or by a thrown exception;
    - [useState] cells are the fields of [UIState], updated by their setters;
    - counts are the integers of the store ([Z]); what the program computes
      on them is computed on doubles ([Js.add_one]). *)

From Stdlib Require Import String Ascii List ZArith Lia Bool.
From Stdlib Require Import Sorting.Sorted Sorting.Permutation.
Import ListNotations.
Open Scope string_scope.

(** ** JavaScript values met in the catalog payload *)

Module Js.

Inductive JsVal : Type :=
| JsUndefined
| JsNull
| JsBool (b : bool)
| JsNumber (n : Z)
| JsString (s : string).

(** ToBoolean. *)
Definition truthy (v : JsVal) : bool :=
  match v with
  | JsUndefined => false
  | JsNull => false
  | JsBool b => b
  | JsNumber n => negb (n =? 0)%Z
  | JsString s => negb (s =? "")
  end.

(** [v === s] for a string literal [s]. *)
Definition strict_eq_string (v : JsVal) (s : string) : bool :=
  match v with
  | JsString t => t =? s
  | _ => false
  end.

(** [a || b]. *)
Definition or_else (a b : JsVal) : JsVal := if truthy a then a else b.

(** *** Numbers

    A number is a double. The counts of the store are integers; read into
    the program they are the nearest doubles, and [+] gives the double
    nearest to the sum. Integers up to [2^53] in size are doubles; beyond,
    one in two, then one in four, and so on. *)

Definition two53 : Z := 9007199254740992.

(** The double nearest to an integer (ties to the even mantissa), for
    integers far below the largest double, as those of the store are. *)
Definition round_double (z : Z) : Z :=
  let a := Z.abs z in
  if (a <=? two53)%Z then z
  else
    let e := (Z.log2 a - 52)%Z in
    let q := Z.shiftr a e in
    let r := (a - Z.shiftl q e)%Z in
    let half := Z.shiftl 1 (e - 1) in
    let q' := if (half <? r)%Z || ((r =? half)%Z && Z.odd q)
              then (q + 1)%Z else q in
    (Z.sgn z * Z.shiftl q' e)%Z.

(** [c + 1] for a count [c] read from the store. *)
Definition add_one (c : Z) : Z := round_double (round_double c + 1).

(** An exception object: [name] and [message]. *)
Record Exn : Type := mkExn { exn_name : string; exn_message : string }.

(** [`${error}`] for an exception object. *)
Definition exn_to_string (e : Exn) : string :=
  exn_name e ++ ": " ++ exn_message e.

(** [`${x}`] for a value that is a string or [null]. *)
Definition template_of_nullable (x : option string) : string :=
  match x with
  | Some s => s
  | None => "null"
  end.

(** *** encodeURIComponent *)

Definition in_range (lo hi n : nat) : bool := (lo <=? n)%nat && (n <=? hi)%nat.

(** The characters [encodeURIComponent] leaves as they are:
    [A-Z a-z 0-9 - _ . ! ~ * ' ( )]. *)
Definition is_unreserved (c : ascii) : bool :=
  let n := nat_of_ascii c in
  in_range 65 90 n || in_range 97 122 n || in_range 48 57 n
  || existsb (Nat.eqb n) [45; 95; 46; 33; 126; 42; 39; 40; 41]%nat.

Definition hex_digit (n : nat) : ascii :=
  match get n "0123456789ABCDEF" with
  | Some c => c
  | None => "0"%char
  end.

Definition percent_byte (c : ascii) : string :=
  let n := nat_of_ascii c in
  String "%" (String (hex_digit (n / 16)) (String (hex_digit (n mod 16)) "")).

Fixpoint encodeURIComponent (s : string) : string :=
  match s with
  | EmptyString => EmptyString
  | String c rest =>
      if is_unreserved c then String c (encodeURIComponent rest)
      else percent_byte c ++ encodeURIComponent rest
  end.

(** What percent-encoding means: the reader on the other side undoes it. *)
Definition hex_value (c : ascii) : option nat :=
  let n := nat_of_ascii c in
  if in_range 48 57 n then Some (n - 48)%nat
  else if in_range 65 70 n then Some (n - 55)%nat
  else if in_range 97 102 n then Some (n - 87)%nat
  else None.

Fixpoint percent_decode (s : string) : option string :=
  match s with
  | EmptyString => Some EmptyString
  | String "%" (String h (String l rest)) =>
      match hex_value h, hex_value l, percent_decode rest with
      | Some a, Some b, Some r => Some (String (ascii_of_nat (16 * a + b)) r)
      | _, _, _ => None
      end
  | String "%" _ => None
  | String c rest =>
      match percent_decode rest with
      | Some r => Some (String c r)
      | None => None
      end
  end.

(** The characters an encoded term is made of: the unreserved ones and
    [%]; the hex digits are among the unreserved. *)
Definition url_safe (c : ascii) : bool :=
  is_unreserved c || (c =? "%")%char.

Fixpoint all_chars (p : ascii -> bool) (s : string) : bool :=
  match s with
  | EmptyString => true
  | String c r => p c && all_chars p r
  end.

End Js.
Import Js.

(** ** Data model *)

(** A movie of the catalog, with the fields the controller and the store
    client read. [poster_path] is a string or [null]. *)
Record Movie : Type := mkMovie {
  id : Z;
  title : string;
  poster_path : option string
}.

(** A document of the analytics collection. [doc_id] is Appwrite's [$id]. *)
Record Document : Type := mkDocument {
  doc_id : nat;
  searchTerm : string;
  count : Z;
  movie_id : Z;
  poster_url : string
}.

(** The collection, in insertion order. *)
Definition Store : Type := list Document.

(** [data.results]: missing, [null], or the array of movies. *)
Inductive Results : Type :=
| ResultsUndefined
| ResultsNull
| ResultsArray (movies : list Movie).

(** The parsed body [data] of a catalog response. *)
Record Payload : Type := mkPayload {
  Response : JsVal;
  Error : JsVal;
  results : Results
}.

(** What [response.json()] gives: a rejection or the parsed payload. *)
Inductive Body : Type :=
| BodyInvalid
| BodyJson (data : Payload).

(** What [fetch] gives: a rejection or a response with its [ok] flag. *)
Inductive FetchResult : Type :=
| FetchRejected
| FetchResponse (ok : bool) (body : Body).

(** [trendingMovies]: the array of documents, or the [undefined] that
    [getTrendingMovies] returns after a caught failure. *)
Inductive Trending : Type :=
| TrendingUndefined
| TrendingDocs (docs : list Document).

(** The [useState] cells of [App]. [rawSearchTerm] is the cell the component
    calls [searchTerm]; the name is taken by the attribute of the
    documents. *)
Record UIState : Type := mkUI {
  debouncedSearchTerm : string;
  rawSearchTerm : string;
  movieList : list Movie;
  errorMessage : JsVal;
  isLoading : bool;
  trendingMovies : Trending
}.

(** The calls a computation makes to its collaborators. *)
Inductive Call : Type :=
| CallFetch (endpoint : string)
| CallUpdateSearchCount (term : string) (movie : Movie)
| CallGetTrendingMovies.

(** A call together with the UI state at the moment it was made. *)
Record Observation : Type := mkObs {
  obs_call : Call;
  obs_ui : UIState
}.

Record World : Type := mkWorld {
  ui : UIState;
  db : Store;
  console : list string;
  history : list Observation
}.

(** The three operations the store client uses. *)
Inductive DbOp : Type := OpList | OpUpdate | OpCreate.

(** How the outside answers: the catalog per endpoint, and which store
    operations fail. *)
Record Env : Type := mkEnv {
  net : string -> FetchResult;
  db_fails : DbOp -> bool
}.

(** ** The monad of asynchronous computations *)

Inductive Completion (A : Type) : Type :=
| Normal (a : A)
| Thrown (e : Exn).
Arguments Normal {A} a.
Arguments Thrown {A} e.

Definition M (A : Type) : Type := Env -> World -> World * Completion A.

Definition ret {A} (a : A) : M A := fun _ w => (w, Normal a).

Definition bind {A B} (c : M A) (k : A -> M B) : M B :=
  fun env w =>
    match c env w with
    | (w', Normal a) => k a env w'
    | (w', Thrown e) => (w', Thrown e)
    end.

Definition throw {A} (e : Exn) : M A := fun _ w => (w, Thrown e).

Declare Scope async_scope.
Delimit Scope async_scope with async.
Notation "x <- c ;; k" := (bind c (fun x => k))
  (at level 61, c at next level, right associativity) : async_scope.
Notation "c ;; k" := (bind c (fun _ => k))
  (at level 61, right associativity) : async_scope.
Open Scope async_scope.

(** [try { body } catch (error) { handler }]. *)
Definition try_catch {A} (body : M A) (handler : Exn -> M A) : M A :=
  fun env w =>
    match body env w with
    | (w', Normal a) => (w', Normal a)
    | (w', Thrown e) => handler e env w'
    end.

(** [try { body } finally { cleanup }]: the cleanup runs on both exits and
    the completion of the body stands unless the cleanup throws. *)
Definition try_finally {A} (body : M A) (cleanup : M unit) : M A :=
  fun env w =>
    match body env w with
    | (w', r) =>
        match cleanup env w' with
        | (w'', Normal _) => (w'', r)
        | (w'', Thrown e) => (w'', Thrown e)
        end
    end.

Definition get_env : M Env := fun env w => (w, Normal env).
Definition get_world : M World := fun _ w => (w, Normal w).
Definition modify (f : World -> World) : M unit := fun _ w => (f w, Normal tt).

Definition exec {A} (c : M A) (env : Env) (w : World) : World := fst (c env w).
Definition result {A} (c : M A) (env : Env) (w : World) : Completion A :=
  snd (c env w).

Definition set_ui (f : UIState -> UIState) : M unit :=
  modify (fun w => mkWorld (f (ui w)) (db w) (console w) (history w)).

Definition set_db (f : Store -> Store) : M unit :=
  modify (fun w => mkWorld (ui w) (f (db w)) (console w) (history w)).

(** [console.error(line)]. *)
Definition console_error (line : string) : M unit :=
  modify (fun w => mkWorld (ui w) (db w) (console w ++ [line]) (history w)).

(** Records a call to a collaborator with the UI state of the moment. *)
Definition observe (c : Call) : M unit :=
  modify (fun w =>
    mkWorld (ui w) (db w) (console w) (history w ++ [mkObs c (ui w)])).

(** The state setters of [App]. *)
Definition setDebouncedSearchTerm (v : string) : M unit :=
  set_ui (fun u => mkUI v (rawSearchTerm u) (movieList u) (errorMessage u)
                        (isLoading u) (trendingMovies u)).
Definition setSearchTerm (v : string) : M unit :=
  set_ui (fun u => mkUI (debouncedSearchTerm u) v (movieList u)
                        (errorMessage u) (isLoading u) (trendingMovies u)).
Definition setMovieList (v : list Movie) : M unit :=
  set_ui (fun u => mkUI (debouncedSearchTerm u) (rawSearchTerm u) v
                        (errorMessage u) (isLoading u) (trendingMovies u)).
Definition setErrorMessage (v : JsVal) : M unit :=
  set_ui (fun u => mkUI (debouncedSearchTerm u) (rawSearchTerm u)
                        (movieList u) v (isLoading u) (trendingMovies u)).
Definition setIsLoading (v : bool) : M unit :=
  set_ui (fun u => mkUI (debouncedSearchTerm u) (rawSearchTerm u)
                        (movieList u) (errorMessage u) v (trendingMovies u)).
Definition setTrendingMovies (v : Trending) : M unit :=
  set_ui (fun u => mkUI (debouncedSearchTerm u) (rawSearchTerm u)
                        (movieList u) (errorMessage u) (isLoading u) v).

(** ** appwrite.js: the analytics store client *)

Module Appwrite.

(** The queries the client builds: [Query.equal("searchTerm", v)],
    [Query.limit(n)] and [Query.orderDesc("count")]. *)
Inductive Query : Type :=
| equal_searchTerm (v : string)
| limit (n : nat)
| orderDesc_count.

(** The store lists at most 25 documents when no limit is asked for. *)
Definition default_limit : nat := 25.

(** The document carries the term. *)
Definition names (term : string) (d : Document) : bool := searchTerm d =? term.

Definition passes (d : Document) (q : Query) : bool :=
  match q with
  | equal_searchTerm v => names v d
  | _ => true
  end.

Definition is_order (q : Query) : bool :=
  match q with
  | orderDesc_count => true
  | _ => false
  end.

Fixpoint limit_of (qs : list Query) : nat :=
  match qs with
  | [] => default_limit
  | limit n :: _ => n
  | _ :: rest => limit_of rest
  end.

(** Ordering by [count], largest first; documents of equal count keep their
    insertion order. *)
Fixpoint insert_desc (d : Document) (l : list Document) : list Document :=
  match l with
  | [] => [d]
  | e :: rest =>
      if (count d <? count e)%Z then e :: insert_desc d rest
      else d :: e :: rest
  end.

Fixpoint order_desc (l : list Document) : list Document :=
  match l with
  | [] => []
  | d :: rest => insert_desc d (order_desc rest)
  end.

(** Modelled from the spec: the listing of the document store, a service
    outside the repository. Section 6: the store "supports equality-filtered
    list, ordered+limited list"; section 4.3: ties are "broken by store's
    natural/insertion order". The documents a list request selects: filter,
    then order, then cut. *)
Definition select (qs : list Query) (store : Store) : list Document :=
  let kept := filter (fun d => forallb (passes d) qs) store in
  let ordered := if existsb is_order qs then order_desc kept else kept in
  firstn (limit_of qs) ordered.

Definition has_id (n : nat) (d : Document) : bool := (doc_id d =? n)%nat.

(** The identifier the store gives to a document created with
    [ID.unique()]: one no document has. *)
Definition unique_id (store : Store) : nat :=
  S (fold_right Nat.max 0%nat (map doc_id store)).

Definition set_count (n : nat) (c : Z) (d : Document) : Document :=
  if has_id n d
  then mkDocument (doc_id d) (searchTerm d) c (movie_id d) (poster_url d)
  else d.

(** A request to the store: it fails when the environment says so. *)
Definition request (op : DbOp) : M unit :=
  env <- get_env ;;
  if db_fails env op
  then throw (mkExn "AppwriteException" "request failed")
  else ret tt.

Definition listDocuments (qs : list Query) : M (list Document) :=
  request OpList ;;
  w <- get_world ;;
  ret (select qs (db w)).

(** Modelled from the spec: "update-by-id" of the document store (section
    6). [updateDocument(.., docId, { count: c })] changes the count of the
    document with that identifier and fails when there is none. *)
Definition updateDocument (docId : nat) (c : Z) : M unit :=
  request OpUpdate ;;
  w <- get_world ;;
  if existsb (has_id docId) (db w)
  then set_db (map (set_count docId c))
  else throw (mkExn "AppwriteException" "document not found").

(** Modelled from the spec: "create-by-generated-id" of the document store
    (section 6). [createDocument(.., ID.unique(), { searchTerm, count,
    movie_id, poster_url })] appends a document under an identifier of the
    store's choosing. *)
Definition createDocument (term : string) (c : Z) (mid : Z) (url : string)
  : M unit :=
  request OpCreate ;;
  set_db (fun store =>
    (store ++ [mkDocument (unique_id store) term c mid url])%list).

Definition image_prefix : string := "https://image.tmdb.org/t/p/w500".

Definition updateSearchCount (searchTerm : string) (movie : Movie) : M unit :=
  observe (CallUpdateSearchCount searchTerm movie) ;;
  try_catch
    (found <- listDocuments [equal_searchTerm searchTerm] ;;
     match found with
     | doc :: _ => updateDocument (doc_id doc) (add_one (count doc))
     | [] =>
         createDocument searchTerm 1 (id movie)
           (image_prefix ++ template_of_nullable (poster_path movie))
     end)
    (fun error => console_error (exn_to_string error)).

(** The function has no [return] in its [catch]: after a failure it gives
    [undefined]. *)
Definition getTrendingMovies : M Trending :=
  observe CallGetTrendingMovies ;;
  try_catch
    (found <- listDocuments [limit 5; orderDesc_count] ;;
     ret (TrendingDocs found))
    (fun error => console_error (exn_to_string error) ;; ret TrendingUndefined).

End Appwrite.

(** ** The component [App]: the controller *)

Module App.

Definition API_BASE_URL : string := "https://api.themoviedb.org/3".

Definition discover_endpoint : string :=
  API_BASE_URL ++ "/discover/movie?sort_by=popularity.desc".

Definition search_endpoint (query : string) : string :=
  API_BASE_URL ++ "/search/movie?query=" ++ encodeURIComponent query.

(** [query ? search : discover]. *)
Definition endpoint_of (query : string) : string :=
  if truthy (JsString query) then search_endpoint query else discover_endpoint.

Definition fetch (endpoint : string) : M (bool * Body) :=
  observe (CallFetch endpoint) ;;
  env <- get_env ;;
  match net env endpoint with
  | FetchRejected => throw (mkExn "TypeError" "Failed to fetch")
  | FetchResponse ok body => ret (ok, body)
  end.

Definition json (body : Body) : M Payload :=
  match body with
  | BodyInvalid => throw (mkExn "SyntaxError" "Unexpected token in JSON")
  | BodyJson data => ret data
  end.

(** [data.results || []]. *)
Definition results_or_empty (r : Results) : list Movie :=
  match r with
  | ResultsArray movies => movies
  | _ => []
  end.

Definition generic_error : string :=
  "Error fetching movies. Please try again later.".

Definition fallback_error : string := "Failed to fetch movies".

(** [if (query && data.results.length > 0)
       await updateSearchCount(query, data.results[0])]:
    reading [length] of a missing [results] throws. *)
Definition record_top_result (query : string) (r : Results) : M unit :=
  if truthy (JsString query) then
    match r with
    | ResultsArray (top :: _) => Appwrite.updateSearchCount query top
    | ResultsArray [] => ret tt
    | ResultsNull =>
        throw (mkExn "TypeError" "Cannot read properties of null")
    | ResultsUndefined =>
        throw (mkExn "TypeError" "Cannot read properties of undefined")
    end
  else ret tt.

Definition fetchMovies_try (query : string) : M unit :=
  response <- fetch (endpoint_of query) ;;
  if negb (fst response) then throw (mkExn "Error" "Failed to fetch movies")
  else
    data <- json (snd response) ;;
    if strict_eq_string (Response data) "False" then
      setErrorMessage (or_else (Error data) (JsString fallback_error)) ;;
      setMovieList []
    else
      setMovieList (results_or_empty (results data)) ;;
      record_top_result query (results data).

Definition fetchMovies_catch (error : Exn) : M unit :=
  console_error ("Error fetching movies: " ++ exn_to_string error) ;;
  setErrorMessage (JsString generic_error).

(** One execution from its call to its end, each [await] answered at once
    and nothing else running in between. [Async] below splits the
    execution at its [await]s, where others can run. *)
Definition fetchMovies (query : string) : M unit :=
  setIsLoading true ;;
  setErrorMessage (JsString "") ;;
  try_finally
    (try_catch (fetchMovies_try query) fetchMovies_catch)
    (setIsLoading false).

Definition loadTrendingMovies : M unit :=
  try_catch
    (movies <- Appwrite.getTrendingMovies ;;
     setTrendingMovies movies)
    (fun error =>
       console_error ("Error fetching trending movies: " ++ exn_to_string error)).

(** [useEffect(() => { fetchMovies(debouncedSearchTerm) },
    [debouncedSearchTerm])]: the body of the effect. *)
Definition search_effect : M unit :=
  w <- get_world ;;
  fetchMovies (debouncedSearchTerm (ui w)).

(** What the "All Movies" section shows. *)
Inductive View : Type :=
| ViewSpinner
| ViewError (message : JsVal)
| ViewMovies (movies : list Movie).

(** [isLoading ? <Spinner/> : errorMessage ? <p>..</p> : <ul>..</ul>]. *)
Definition all_movies_view (u : UIState) : View :=
  if isLoading u then ViewSpinner
  else if truthy (errorMessage u) then ViewError (errorMessage u)
  else ViewMovies (movieList u).

(** [trendingMovies.length > 0 && ...]: whether the trending section is
    rendered; reading [length] of [undefined] throws. *)
Definition trending_visible (u : UIState) : Completion bool :=
  match trendingMovies u with
  | TrendingDocs docs => Normal (0 <? length docs)%nat
  | TrendingUndefined =>
      Thrown (mkExn "TypeError" "Cannot read properties of undefined")
  end.

(** One render of [App]: both sections, or the exception of the render. *)
Definition render (u : UIState) : Completion (bool * View) :=
  match trending_visible u with
  | Normal shown => Normal (shown, all_movies_view u)
  | Thrown e => Thrown e
  end.

(** The values [useState] starts from. *)
Definition initial_ui : UIState :=
  mkUI "" "" [] (JsString "") false (TrendingDocs []).

Definition initial_world (store : Store) : World :=
  mkWorld initial_ui store [] [].

End App.

(** ** Executions in flight

    [fetchMovies] suspends at [await fetch(..)], at [await
    response.json()] and at [await updateSearchCount(..)], which itself
    suspends at its listing and at its update or creation. Nothing cancels
    an execution: while one is suspended others start, resume and end, and
    all write the same cells. *)

Module Async.

(** What a suspended execution waits for. *)
Inductive Pending : Type :=
| AwaitFetch (query : string)
| AwaitJson (query : string) (body : Body)
| AwaitList (query : string) (top : Movie)
| AwaitUpdate (docId : nat) (c : Z)
| AwaitCreate (term : string) (movie : Movie)
| Settled.

Definition is_settled (p : Pending) : bool :=
  match p with
  | Settled => true
  | _ => false
  end.

(** The rest of the [try] block, then [catch] and [finally]. *)
Definition settle (rest : M unit) : M Pending :=
  try_finally (try_catch rest App.fetchMovies_catch) (setIsLoading false) ;;
  ret Settled.

(** The call of [fetchMovies(query)] up to its first [await]. *)
Definition start (query : string) : M Pending :=
  setIsLoading true ;;
  setErrorMessage (JsString "") ;;
  observe (CallFetch (App.endpoint_of query)) ;;
  ret (AwaitFetch query).

(** The execution from the answer it waited for to its next [await], or to
    its end. *)
Definition resume (p : Pending) : M Pending :=
  match p with
  | AwaitFetch query =>
      env <- get_env ;;
      match net env (App.endpoint_of query) with
      | FetchRejected => settle (throw (mkExn "TypeError" "Failed to fetch"))
      | FetchResponse ok body =>
          if negb ok
          then settle (throw (mkExn "Error" "Failed to fetch movies"))
          else ret (AwaitJson query body)
      end
  | AwaitJson query body =>
      match body with
      | BodyInvalid =>
          settle (throw (mkExn "SyntaxError" "Unexpected token in JSON"))
      | BodyJson data =>
          if strict_eq_string (Response data) "False" then
            settle (setErrorMessage
                      (or_else (Error data) (JsString App.fallback_error)) ;;
                    setMovieList [])
          else
            setMovieList (App.results_or_empty (results data)) ;;
            if truthy (JsString query) then
              match results data with
              | ResultsArray (top :: _) =>
                  observe (CallUpdateSearchCount query top) ;;
                  ret (AwaitList query top)
              | ResultsArray [] => settle (ret tt)
              | ResultsNull =>
                  settle (throw (mkExn "TypeError"
                                       "Cannot read properties of null"))
              | ResultsUndefined =>
                  settle (throw (mkExn "TypeError"
                                       "Cannot read properties of undefined"))
              end
            else settle (ret tt)
      end
  | AwaitList query top =>
      found <- try_catch
                 (l <- Appwrite.listDocuments [Appwrite.equal_searchTerm query] ;;
                  ret (Some l))
                 (fun error => console_error (exn_to_string error) ;; ret None) ;;
      match found with
      | None => settle (ret tt)
      | Some (doc :: _) => ret (AwaitUpdate (doc_id doc) (add_one (count doc)))
      | Some [] => ret (AwaitCreate query top)
      end
  | AwaitUpdate docId c =>
      try_catch (Appwrite.updateDocument docId c)
                (fun error => console_error (exn_to_string error)) ;;
      settle (ret tt)
  | AwaitCreate term movie =>
      try_catch
        (Appwrite.createDocument term 1 (id movie)
           (Appwrite.image_prefix ++ template_of_nullable (poster_path movie)))
        (fun error => console_error (exn_to_string error)) ;;
      settle (ret tt)
  | Settled => ret Settled
  end.

(** An execution that runs with no other in flight: its steps one after the
    other. Four answers at most are waited for. *)
Definition alone (query : string) : M unit :=
  p0 <- start query ;;
  p1 <- resume p0 ;;
  p2 <- resume p1 ;;
  p3 <- resume p2 ;;
  _ <- resume p3 ;;
  ret tt.

(** What happens in the page: a query is launched, or the answer the
    [i]-th execution waits for arrives. *)
Inductive Event : Type :=
| Launch (query : string)
| Deliver (i : nat).

(** The world and the executions launched so far, in the order of their
    launch. *)
Definition Board : Type := (World * list Pending)%type.

Definition next (c : M Pending) (env : Env) (w : World) : World * Pending :=
  match c env w with
  | (w', Normal p) => (w', p)
  | (w', Thrown _) => (w', Settled)
  end.

Fixpoint set_nth (i : nat) (p : Pending) (l : list Pending) : list Pending :=
  match l, i with
  | [], _ => []
  | _ :: rest, O => p :: rest
  | q :: rest, S j => q :: set_nth j p rest
  end.

Definition play1 (env : Env) (b : Board) (e : Event) : Board :=
  match e with
  | Launch query =>
      let (w', p) := next (start query) env (fst b) in
      (w', (snd b ++ [p])%list)
  | Deliver i =>
      match nth_error (snd b) i with
      | Some p =>
          let (w', p') := next (resume p) env (fst b) in
          (w', set_nth i p' (snd b))
      | None => b
      end
  end.

Definition play (env : Env) (events : list Event) (b : Board) : Board :=
  fold_left (play1 env) events b.

End Async.

(** ** The mounted component over time: the debounce of the search input *)

Module Session.

(** The quiet window given to [useDebounce]. *)
Definition debounce_ms : Z := 500.

(** The mounted [App]: its world, the deadline of the timeout that
    [useDebounce] holds (at most one, each re-arming clears the one before),
    and the runs of the debounced callback so far (when, with which value). *)
Record Mounted : Type := mkMounted {
  world : World;
  timer : option Z;
  propagated : list (Z * string)
}.

(** The timeout runs [() => setDebouncedSearchTerm(searchTerm)] with the
    latest [searchTerm]. Setting a state to the value it has renders nothing
    and runs no effect; a changed [debouncedSearchTerm] is a dependency of
    the search effect, which then runs. *)
Definition fire (env : Env) (deadline : Z) (a : Mounted) : Mounted :=
  let w := world a in
  let v := rawSearchTerm (ui w) in
  let w' :=
    if v =? debouncedSearchTerm (ui w) then w
    else exec (setDebouncedSearchTerm v ;; App.search_effect) env w in
  mkMounted w' None (propagated a ++ [(deadline, v)]).

(** Modelled from the spec: the timeout inside [useDebounce], a hook of the
    react-use package whose code is not part of the repository. Section 4.1:
    "if the window elapses with no further change, propagate the latest
    value". Time reaches [t]: a timeout whose deadline has come runs. *)
Definition advance (env : Env) (t : Z) (a : Mounted) : Mounted :=
  match timer a with
  | Some deadline => if (deadline <=? t)%Z then fire env deadline a else a
  | None => a
  end.

(** Modelled from the spec: the re-arming inside [useDebounce] (react-use,
    not part of the repository). Section 4.1: "on each input change, cancel
    any pending scheduled propagation and schedule a new one after the quiet
    window". [onChange] of the input at time [t] calls [setSearchTerm(v)];
    when the state changes, the dependency [searchTerm] of [useDebounce]
    changed and the timeout is cleared and set again. *)
Definition change (env : Env) (t : Z) (v : string) (a : Mounted) : Mounted :=
  if v =? rawSearchTerm (ui (world a)) then a
  else mkMounted (exec (setSearchTerm v) env (world a))
                 (Some (t + debounce_ms)%Z) (propagated a).

(** An edit of the input at its time, after what was due before it. *)
Definition input (env : Env) (a : Mounted) (e : Z * string) : Mounted :=
  change env (fst e) (snd e) (advance env (fst e) a).

(** The edits in order, then time runs on to [stop]. *)
Definition run (env : Env) (a : Mounted) (edits : list (Z * string)) (stop : Z)
  : Mounted :=
  advance env stop (fold_left (input env) edits a).

(** Modelled from the spec: teardown. Section 4.1: "if the owning component
    is torn down before the window elapses, the pending propagation must not
    fire". *)
Definition unmount (a : Mounted) : Mounted :=
  mkMounted (world a) None (propagated a).

(** The first render at time 0: [useDebounce] arms its timeout, the search
    effect and [loadTrendingMovies] run, and the component renders again
    with what they left. A render that throws takes the component down (no
    error boundary stands above it), and with it the timeout. *)
Definition mount (env : Env) (store : Store) : Mounted :=
  let w := exec (App.search_effect ;; App.loadTrendingMovies) env
                (App.initial_world store) in
  match App.render (ui w) with
  | Normal _ => mkMounted w (Some debounce_ms) []
  | Thrown _ => unmount (mkMounted w (Some debounce_ms) [])
  end.

(** The raw term of the input and the settled term. *)
Definition raw (a : Mounted) : string := rawSearchTerm (ui (world a)).
Definition settledTerm (a : Mounted) : string :=
  debouncedSearchTerm (ui (world a)).

(** Each edit comes less than the quiet window after the one before. *)
Fixpoint rapid (t : Z) (edits : list (Z * string)) : bool :=
  match edits with
  | [] => true
  | (t', _) :: rest =>
      (t <=? t')%Z && (t' <? t + debounce_ms)%Z && rapid t' rest
  end.

(** Each edit changes the value of the input. *)
Fixpoint changes (v : string) (edits : list (Z * string)) : bool :=
  match edits with
  | [] => true
  | (_, v') :: rest => negb (v' =? v) && changes v' rest
  end.

(** No timeout of [a] is due at [t] or before. *)
Definition quiet_at (t : Z) (a : Mounted) : bool :=
  match timer a with
  | Some deadline => (t <? deadline)%Z
  | None => true
  end.

End Session.

(** ** Reading the history *)

(** The endpoints requested, in order. *)
Definition fetched (h : list Observation) : list string :=
  flat_map (fun o => match obs_call o with
                     | CallFetch e => [e]
                     | _ => []
                     end) h.

(** The invocations of [updateSearchCount], in order. *)
Definition recorded (h : list Observation) : list (string * Movie) :=
  flat_map (fun o => match obs_call o with
                     | CallUpdateSearchCount t m => [(t, m)]
                     | _ => []
                     end) h.

(** The observations a computation adds to the history. *)
Definition during {A} (c : M A) (env : Env) (w : World) : list Observation :=
  skipn (length (history w)) (history (exec c env w)).

(** Largest count first. *)
Definition count_ge (a b : Document) : Prop := (count b <= count a)%Z.

(** An environment in which every request succeeds. *)
Definition store_up (env : Env) : Prop := forall op, db_fails env op = false.

(** ** Closed forms

    What [fetchMovies] leaves, written as plain functions of the answer of
    the catalog. They are not part of the program: the section on the
    catalog query proves the embedding equal to them, and the properties
    are then read off. *)

Module Summary.

(** The cells after [setIsLoading(true); setErrorMessage("")]. *)
Definition started (u : UIState) : UIState :=
  mkUI (debouncedSearchTerm u) (rawSearchTerm u) (movieList u)
       (JsString "") true (trendingMovies u).

(** The cells [u] with the list [movies]. *)
Definition showing (movies : list Movie) (u : UIState) : UIState :=
  mkUI (debouncedSearchTerm u) (rawSearchTerm u) movies
       (errorMessage u) (isLoading u) (trendingMovies u).

(** [movieList] and [errorMessage] once the query for [query] got the
    answer [r], the list having been [before]. *)
Definition settled (query : string) (r : FetchResult) (before : list Movie)
  : list Movie * JsVal :=
  match r with
  | FetchRejected => (before, JsString App.generic_error)
  | FetchResponse false _ => (before, JsString App.generic_error)
  | FetchResponse true BodyInvalid => (before, JsString App.generic_error)
  | FetchResponse true (BodyJson data) =>
      if strict_eq_string (Response data) "False"
      then ([], or_else (Error data) (JsString App.fallback_error))
      else
        match results data with
        | ResultsArray movies => (movies, JsString "")
        | _ =>
            if truthy (JsString query) then ([], JsString App.generic_error)
            else ([], JsString "")
        end
  end.

Definition finished (query : string) (r : FetchResult) (u : UIState)
  : UIState :=
  mkUI (debouncedSearchTerm u) (rawSearchTerm u)
       (fst (settled query r (movieList u)))
       (snd (settled query r (movieList u)))
       false (trendingMovies u).

(** The first movie of the answer, when the term is not empty and the
    answer is a success with at least one movie. *)
Definition top_result (query : string) (r : FetchResult)
  : option (Movie * list Movie) :=
  match r with
  | FetchResponse true (BodyJson data) =>
      if strict_eq_string (Response data) "False" then None
      else if truthy (JsString query) then
        match results data with
        | ResultsArray (top :: rest) => Some (top, rest)
        | _ => None
        end
      else None
  | _ => None
  end.

(** The calls of one [fetchMovies], each with the cells it saw. *)
Definition calls (query : string) (r : FetchResult) (u : UIState)
  : list Observation :=
  mkObs (CallFetch (App.endpoint_of query)) (started u)
  :: match top_result query r with
     | Some (top, rest) =>
         [mkObs (CallUpdateSearchCount query top)
                (showing (top :: rest) (started u))]
     | None => []
     end.

End Summary.

(** ** Sample data *)

Module Sample.

Definition dune : Movie := mkMovie 438631 "Dune" (Some "/abc.jpg").

Definition untitled : Movie := mkMovie 7 "No poster" None.

Definition doc (n : nat) (term : string) (c : Z) : Document :=
  mkDocument n term c 438631 "https://image.tmdb.org/t/p/w500/abc.jpg".

(** Five terms with counts 3, 1, 5, 2, 4. *)
Definition five_terms : Store :=
  [doc 1 "dune" 3; doc 2 "batman" 1; doc 3 "inception" 5;
   doc 4 "alien" 2; doc 5 "heat" 4].

(** The catalog always gives [answer]; the store is up. *)
Definition env_up (answer : FetchResult) : Env :=
  mkEnv (fun _ => answer) (fun _ => false).

(** The catalog always gives [answer]; the store fails every request. *)
Definition env_store_down (answer : FetchResult) : Env :=
  mkEnv (fun _ => answer) (fun _ => true).

Definition ok_with (r : Results) : FetchResult :=
  FetchResponse true (BodyJson (mkPayload JsUndefined JsUndefined r)).

Definition world_of (store : Store) : World :=
  mkWorld (mkUI "" "" [] (JsString "") false (TrendingDocs [])) store [] [].

(** A world whose list shows a movie from an earlier query. *)
Definition world_showing (m : Movie) : World :=
  mkWorld (mkUI "" "" [m] (JsString "") false (TrendingDocs [])) [] [] [].

End Sample.

(** ** The card of a movie and the rows of the trending section *)

Module MovieCard.

(** A property that is a string or [null], as a value. *)
Definition nullable (x : option string) : JsVal :=
  match x with
  | Some s => JsString s
  | None => JsNull
  end.

(** [poster_path ? `https://image.tmdb.org/t/p/w500/${poster_path}`
                 : "/no-movie.png"]. *)
Definition poster_src (poster_path : option string) : string :=
  if truthy (nullable poster_path)
  then "https://image.tmdb.org/t/p/w500/" ++ template_of_nullable poster_path
  else "/no-movie.png".

(** [s.split("-")[0]] for a string that is not empty: what comes before the
    first dash, the whole string when it has none. *)
Fixpoint before_dash (s : string) : string :=
  match s with
  | EmptyString => EmptyString
  | String c rest =>
      if (c =? "-")%char then EmptyString else String c (before_dash rest)
  end.

(** [release_date ? release_date.split("-")[0] : "N/A"]. *)
Definition release_year (release_date : option string) : string :=
  if truthy (nullable release_date)
  then before_dash (template_of_nullable release_date)
  else "N/A".

(** [trendingMovies.map((movie, index) => ...)]: the rank [index + 1] and
    the image address [movie.poster_url] of each row. *)
Definition trending_rows (docs : list Document) : list (nat * string) :=
  combine (seq 1 (length docs)) (map poster_url docs).

End MovieCard.

(** ** Measures and scenarios the further properties are stated with *)

Module Scenario.

(** Whether a character occurs in a string. *)
Fixpoint occurs (c : ascii) (s : string) : bool :=
  match s with
  | EmptyString => false
  | String d rest => (d =? c)%char || occurs c rest
  end.


(** Whether one of the requests [updateSearchCount] makes for [term] on
    [store] fails: the listing, then the update or the creation. *)
Definition request_fails (env : Env) (term : string) (store : Store) : bool :=
  db_fails env OpList
  || match Appwrite.select [Appwrite.equal_searchTerm term] store with
     | _ :: _ => db_fails env OpUpdate
     | [] => db_fails env OpCreate
     end.

(** What a call of [updateSearchCount] leaves in the store, whatever the
    store answers; a closed form, proved equal to the embedding. *)
Definition upserted (env : Env) (term : string) (movie : Movie) (store : Store)
  : Store :=
  if request_fails env term store then store
  else
    match Appwrite.select [Appwrite.equal_searchTerm term] store with
    | doc :: _ =>
        map (Appwrite.set_count (doc_id doc) (add_one (count doc))) store
    | [] =>
        (store ++ [mkDocument (Appwrite.unique_id store) term 1 (id movie)
                     (Appwrite.image_prefix
                      ++ template_of_nullable (poster_path movie))])%list
    end.

(** The searches of one term, one after the other, each with the top
    movie of its answer. *)
Fixpoint record_all (term : string) (movies : list Movie) : M unit :=
  match movies with
  | [] => ret tt
  | m :: rest => Appwrite.updateSearchCount term m ;; record_all term rest
  end.

(** Each edit comes when the quiet window of the one before has passed. *)
Fixpoint slow (t : Z) (edits : list (Z * string)) : bool :=
  match edits with
  | [] => true
  | (t', _) :: rest => (t + Session.debounce_ms <=? t')%Z && slow t' rest
  end.


(** The characters that delimit the parts of an address. *)
Definition delimiters : list ascii :=
  [" "; "&"; "="; "?"; "#"; "/"; "+"; ":"; ";"; ","; "@"; "$"]%char.

End Scenario.

(** * Properties *)

(** ** encodeURIComponent *)

Section Encoding.

Lemma percent_decode_unreserved (c : ascii) (r : string) :
  is_unreserved c = true ->
  percent_decode (String c r) = option_map (String c) (percent_decode r).
Proof.
  destruct c as [[] [] [] [] [] [] [] []]; intros H;
    try discriminate H; cbn; destruct (percent_decode r); reflexivity.
Qed.

Lemma percent_decode_byte (c : ascii) (r : string) :
  percent_decode (percent_byte c ++ r) = option_map (String c) (percent_decode r).
Proof.
  destruct c as [[] [] [] [] [] [] [] []]; cbn;
    destruct (percent_decode r); reflexivity.
Qed.

(** Decoding undoes the encoding: nothing of the term is lost or merged. *)
Lemma percent_decode_encode (s : string) :
  percent_decode (encodeURIComponent s) = Some s.
Proof.
  induction s as [|c s IH]; [reflexivity|].
  cbn [encodeURIComponent].
  destruct (is_unreserved c) eqn:U.
  - rewrite percent_decode_unreserved by exact U. now rewrite IH.
  - rewrite percent_decode_byte. now rewrite IH.
Qed.

Lemma all_chars_app p a b :
  all_chars p (a ++ b) = all_chars p a && all_chars p b.
Proof.
  induction a as [|c a IH]; cbn; [reflexivity|].
  now rewrite IH, andb_assoc.
Qed.

Lemma percent_byte_safe (c : ascii) : all_chars url_safe (percent_byte c) = true.
Proof. destruct c as [[] [] [] [] [] [] [] []]; reflexivity. Qed.

Lemma encodeURIComponent_safe (s : string) :
  all_chars url_safe (encodeURIComponent s) = true.
Proof.
  induction s as [|c s IH]; [reflexivity|].
  cbn [encodeURIComponent].
  destruct (is_unreserved c) eqn:U.
  - cbn. unfold url_safe at 1. now rewrite U, IH.
  - now rewrite all_chars_app, percent_byte_safe, IH.
Qed.

End Encoding.

(** ** Ordering of the documents *)

Section Ordering.

Import Appwrite.

Lemma insert_desc_perm d l : Permutation (d :: l) (insert_desc d l).
Proof.
  induction l as [|e l IH]; cbn; [reflexivity|].
  destruct (count d <? count e)%Z; [|reflexivity].
  rewrite perm_swap. now constructor.
Qed.

Lemma order_desc_perm l : Permutation l (order_desc l).
Proof.
  induction l as [|d l IH]; cbn; [constructor|].
  rewrite <- insert_desc_perm. now constructor.
Qed.

Lemma order_desc_length l : length (order_desc l) = length l.
Proof. symmetry. apply Permutation_length, order_desc_perm. Qed.

Lemma insert_desc_sorted d l :
  StronglySorted count_ge l -> StronglySorted count_ge (insert_desc d l).
Proof.
  induction 1 as [|e l Hl IH He]; cbn.
  - repeat constructor.
  - destruct (Z.ltb_spec (count d) (count e)) as [Hlt|Hge].
    + constructor; [exact IH|].
      rewrite Forall_forall in *. intros x Hx.
      apply (Permutation_in _ (Permutation_sym (insert_desc_perm d l))) in Hx.
      destruct Hx as [<-|Hx]; [unfold count_ge; lia | now apply He].
    + constructor; [now constructor|].
      constructor; [exact Hge|].
      rewrite Forall_forall in *. intros x Hx.
      specialize (He x Hx). unfold count_ge in *. lia.
Qed.

Lemma order_desc_sorted l : StronglySorted count_ge (order_desc l).
Proof.
  induction l as [|d l IH]; cbn; [constructor|].
  now apply insert_desc_sorted.
Qed.

Lemma in_firstn {A} n (l : list A) x : In x (firstn n l) -> In x l.
Proof.
  intros H. rewrite <- (firstn_skipn n l). apply in_or_app. now left.
Qed.

Lemma in_skipn {A} n (l : list A) x : In x (skipn n l) -> In x l.
Proof.
  intros H. rewrite <- (firstn_skipn n l). apply in_or_app. now right.
Qed.

Lemma sorted_firstn n l :
  StronglySorted count_ge l -> StronglySorted count_ge (firstn n l).
Proof.
  intros H. revert n.
  induction H as [|e l Hl IH He]; intros [|n]; cbn; try constructor.
  - apply IH.
  - rewrite Forall_forall in *. intros x Hx.
    apply He. eapply in_firstn. exact Hx.
Qed.

(** In a sorted list, what the cut leaves out is no larger than what it
    keeps. *)
Lemma sorted_cut n l x y :
  StronglySorted count_ge l ->
  In x (firstn n l) -> In y (skipn n l) -> count_ge x y.
Proof.
  intros H. revert n.
  induction H as [|e l Hl IH He]; intros n Hx Hy.
  - destruct n; contradiction.
  - destruct n as [|n]; [contradiction|].
    cbn in Hx, Hy. destruct Hx as [<-|Hx].
    + rewrite Forall_forall in He. apply He.
      eapply in_skipn. exact Hy.
    + now apply (IH n).
Qed.

End Ordering.

(** ** Running the computations *)

Create HintDb async discriminated.

#[local] Hint Unfold exec result during bind ret throw try_catch try_finally
  get_env get_world modify set_ui set_db console_error observe
  setDebouncedSearchTerm setSearchTerm setMovieList setErrorMessage
  setIsLoading setTrendingMovies : async.

#[local] Hint Unfold Appwrite.request Appwrite.listDocuments
  Appwrite.updateDocument Appwrite.createDocument Appwrite.updateSearchCount
  Appwrite.getTrendingMovies : async.

#[local] Hint Unfold App.fetch App.json App.record_top_result
  App.fetchMovies_try App.fetchMovies_catch App.fetchMovies
  App.loadTrendingMovies App.search_effect : async.

#[local] Arguments Appwrite.select : simpl never.
#[local] Arguments Appwrite.unique_id : simpl never.

(** Unfolds the monad down to the world it computes. *)
Ltac step_async := autounfold with async; cbn.

Section Trending.

Import Appwrite.

Lemma filter_all {A} (l : list A) : filter (fun _ => true) l = l.
Proof. induction l as [|x l IH]; cbn; congruence. Qed.

Lemma select_trending (store : Store) :
  select [limit 5; orderDesc_count] store = firstn 5 (order_desc store).
Proof. unfold select. cbn [limit_of existsb is_order orb]. now rewrite filter_all. Qed.

Lemma getTrendingMovies_ok env w :
  db_fails env OpList = false ->
  result getTrendingMovies env w
  = Normal (TrendingDocs (firstn 5 (order_desc (db w)))).
Proof.
  intros H. step_async. rewrite H. cbn. now rewrite select_trending.
Qed.

Lemma getTrendingMovies_failed env w :
  db_fails env OpList = true ->
  result getTrendingMovies env w = Normal TrendingUndefined.
Proof. intros H. step_async. now rewrite H. Qed.

(** C8. When the store answers, [getTrendingMovies] returns documents of the
    collection, at most 5 of them (5 when the collection has as many),
    largest count first, and no document left out has a larger count than
    one returned. *)
Theorem getTrendingMovies_top5 env w :
  db_fails env OpList = false ->
  exists docs rest,
    result Appwrite.getTrendingMovies env w = Normal (TrendingDocs docs)
    /\ (length docs <= 5)%nat
    /\ length docs = Nat.min 5 (length (db w))
    /\ StronglySorted count_ge docs
    /\ Permutation (db w) (docs ++ rest)
    /\ (forall x y, In x docs -> In y rest -> count_ge x y).
Proof.
  intros H.
  exists (firstn 5 (order_desc (db w))), (skipn 5 (order_desc (db w))).
  split; [now apply getTrendingMovies_ok|].
  assert (L : length (firstn 5 (order_desc (db w))) = Nat.min 5 (length (db w)))
    by now rewrite length_firstn, order_desc_length.
  repeat split.
  - rewrite L. apply Nat.le_min_l.
  - exact L.
  - apply sorted_firstn, order_desc_sorted.
  - rewrite firstn_skipn. apply order_desc_perm.
  - intros x y. apply sorted_cut, order_desc_sorted.
Qed.

End Trending.

(** C8, on the store of the specification's example: five terms with counts
    3, 1, 5, 2, 4 come back as five documents with counts 5, 4, 3, 2, 1. *)
Lemma getTrendingMovies_top5_example :
  exists docs,
    result Appwrite.getTrendingMovies (Sample.env_up FetchRejected)
           (Sample.world_of Sample.five_terms) = Normal (TrendingDocs docs)
    /\ map count docs = [5; 4; 3; 2; 1]%Z
    /\ map searchTerm docs = ["inception"; "heat"; "dune"; "alien"; "batman"].
Proof.
  destruct (getTrendingMovies_top5 (Sample.env_up FetchRejected)
              (Sample.world_of Sample.five_terms) eq_refl)
    as (docs & rest & Hres & _).
  exists docs. split; [exact Hres|].
  vm_compute in Hres. injection Hres as <-. split; reflexivity.
Defined.

(** ** The failure of the trending load *)

Section TrendingFailure.

(** C3. When the store fails the list request, [loadTrendingMovies]
    completes without an exception and logs one line, but it stores the
    [undefined] that [getTrendingMovies] returned in [trendingMovies], and
    the next render throws on [trendingMovies.length]. *)
Theorem loadTrendingMovies_failure_sets_undefined env w :
  db_fails env OpList = true ->
  result App.loadTrendingMovies env w = Normal tt
  /\ trendingMovies (ui (exec App.loadTrendingMovies env w)) = TrendingUndefined
  /\ App.render (ui (exec App.loadTrendingMovies env w))
     = Thrown (mkExn "TypeError" "Cannot read properties of undefined")
  /\ length (console (exec App.loadTrendingMovies env w))
     = S (length (console w)).
Proof.
  intros H. step_async. rewrite H. cbn.
  repeat split. rewrite length_app. cbn. lia.
Qed.

(** C3 at a store that is down: the trending state held an (empty) array
    before the load and holds [undefined] after it. *)
Lemma loadTrendingMovies_failure_example :
  trendingMovies (ui (Sample.world_of [])) = TrendingDocs []
  /\ trendingMovies
       (ui (exec App.loadTrendingMovies (Sample.env_store_down FetchRejected)
                 (Sample.world_of [])))
     = TrendingUndefined
  /\ App.render
       (ui (exec App.loadTrendingMovies (Sample.env_store_down FetchRejected)
                 (Sample.world_of [])))
     = Thrown (mkExn "TypeError" "Cannot read properties of undefined").
Proof.
  split; [reflexivity|].
  pose proof (loadTrendingMovies_failure_sets_undefined
                (Sample.env_store_down FetchRejected) (Sample.world_of [])
                eq_refl) as (_ & Hu & Hr & _).
  split; [exact Hu | exact Hr].
Defined.

End TrendingFailure.

(** ** The upsert of the search count *)

Section Upsert.

Import Appwrite.

Implicit Types (store pre post : Store) (doc d : Document) (term : string).

#[local] Open Scope list_scope.

Lemma passes_equal term d :
  forallb (passes d) [equal_searchTerm term] = names term d.
Proof. cbn. apply andb_true_r. Qed.

Lemma select_equal term store :
  select [equal_searchTerm term] store
  = firstn default_limit (filter (names term) store).
Proof.
  unfold select. cbn [limit_of existsb is_order orb].
  f_equal. apply filter_ext. intros d. apply passes_equal.
Qed.

Lemma filter_none term store :
  (forall d, In d store -> searchTerm d <> term) ->
  filter (names term) store = [].
Proof.
  induction store as [|e store IH]; intros H; cbn; [reflexivity|].
  unfold names at 1. destruct (String.eqb_spec (searchTerm e) term) as [E|_].
  - exfalso. apply (H e); [now left | exact E].
  - apply IH. intros d Hd. apply H. now right.
Qed.

Lemma select_equal_none term store :
  (forall d, In d store -> searchTerm d <> term) ->
  select [equal_searchTerm term] store = [].
Proof. intros H. rewrite select_equal, filter_none by exact H. reflexivity. Qed.

(** The first document of the answer is the first of the collection that
    carries the term. *)
Lemma select_equal_first term pre doc post :
  (forall d, In d pre -> searchTerm d <> term) ->
  searchTerm doc = term ->
  exists more,
    select [equal_searchTerm term] (pre ++ doc :: post) = doc :: more.
Proof.
  intros Hpre Hdoc. rewrite select_equal, filter_app, filter_none by exact Hpre.
  cbn. unfold names at 1. rewrite Hdoc, String.eqb_refl. cbn. eauto.
Qed.

Lemma set_count_other n c store :
  ~ In n (map doc_id store) -> map (set_count n c) store = store.
Proof.
  induction store as [|e store IH]; intros H; cbn; [reflexivity|].
  cbn in H. unfold set_count at 1, has_id.
  destruct (Nat.eqb_spec (doc_id e) n) as [E|_]; [tauto|].
  f_equal. apply IH. tauto.
Qed.

Lemma set_count_here pre doc post c :
  NoDup (map doc_id (pre ++ doc :: post)) ->
  map (set_count (doc_id doc) c) (pre ++ doc :: post)
  = pre ++ mkDocument (doc_id doc) (searchTerm doc) c (movie_id doc)
                      (poster_url doc) :: post.
Proof.
  intros H. rewrite map_app in H. cbn in H.
  pose proof (NoDup_remove_2 _ _ _ H) as Hn.
  rewrite in_app_iff in Hn.
  rewrite map_app. cbn. unfold set_count at 2, has_id. rewrite Nat.eqb_refl.
  rewrite !set_count_other by tauto. reflexivity.
Qed.

Lemma has_id_found pre doc post :
  existsb (has_id (doc_id doc)) (pre ++ doc :: post) = true.
Proof.
  rewrite existsb_app. cbn. unfold has_id at 2. rewrite Nat.eqb_refl.
  now rewrite orb_true_r.
Qed.

(** What one call leaves in the store when every request succeeds. *)
Lemma updateSearchCount_db env w term movie :
  store_up env ->
  db (exec (updateSearchCount term movie) env w)
  = match select [equal_searchTerm term] (db w) with
    | doc :: _ =>
        if existsb (has_id (doc_id doc)) (db w)
        then map (set_count (doc_id doc) (add_one (count doc))) (db w)
        else db w
    | [] =>
        db w ++ [mkDocument (unique_id (db w)) term 1 (id movie)
                   (image_prefix ++ template_of_nullable (poster_path movie))%string]
    end.
Proof.
  intros Hup. step_async. rewrite Hup. cbn.
  destruct (select _ (db w)) as [|doc more]; cbn; rewrite Hup; cbn.
  - reflexivity.
  - destruct (existsb _ (db w)); reflexivity.
Qed.

(** The call touches no state of the controller and never throws. *)
Lemma updateSearchCount_ui env w term movie :
  ui (exec (updateSearchCount term movie) env w) = ui w
  /\ result (updateSearchCount term movie) env w = Normal tt.
Proof.
  step_async.
  destruct (db_fails env OpList); cbn; [now split|].
  destruct (select _ (db w)) as [|doc more]; cbn.
  - destruct (db_fails env OpCreate); cbn; now split.
  - destruct (db_fails env OpUpdate); cbn; [now split|].
    destruct (existsb _ (db w)); cbn; now split.
Qed.

(** The identifier of a created document is new. *)
Lemma unique_id_fresh store : ~ In (unique_id store) (map doc_id store).
Proof.
  unfold unique_id. intros H.
  assert (B : forall l n, In n l -> (n <= fold_right Nat.max 0 l)%nat).
  { induction l as [|x l IH]; intros n Hn; [destruct Hn|].
    destruct Hn as [E|Hn]; cbn.
    - subst. apply Nat.le_max_l.
    - specialize (IH n Hn). lia. }
  specialize (B _ _ H). lia.
Qed.

(** Below [2^53] in size the sum is exact. *)
Lemma add_one_exact (c : Z) :
  (- two53 <= c < two53)%Z -> add_one c = (c + 1)%Z.
Proof.
  intros H. unfold add_one, round_double, two53 in *.
  destruct (Z.leb_spec (Z.abs c) 9007199254740992); [|lia].
  destruct (Z.leb_spec (Z.abs (c + 1)) 9007199254740992); [reflexivity|lia].
Qed.

(** At [2^53] the sum is the count itself. *)
Lemma add_one_stalls : add_one two53 = two53.
Proof. reflexivity. Qed.

(** C1, with the bound the addition needs. With the store up and document
    identifiers distinct: when a document carries the term, the first such
    gets the count [doc.count + 1] as the program computes it, which is the
    count raised by exactly 1 when the count is below [2^53] in size, and
    nothing else in the collection changes, no document added; when none
    does, one document is appended with count 1, the movie's id and the
    image prefix followed by the poster path ("null" for a null path). The
    controller's state is untouched and nothing is thrown. *)
Theorem updateSearchCount_upsert env w term movie :
  store_up env ->
  NoDup (map doc_id (db w)) ->
  let w' := exec (Appwrite.updateSearchCount term movie) env w in
  (forall pre doc post,
      db w = pre ++ doc :: post ->
      searchTerm doc = term ->
      (forall d, In d pre -> searchTerm d <> term) ->
      db w' = pre ++ mkDocument (doc_id doc) term (add_one (count doc))
                                (movie_id doc) (poster_url doc) :: post
      /\ length (db w') = length (db w)
      /\ ((- two53 <= count doc < two53)%Z ->
          add_one (count doc) = (count doc + 1)%Z))
  /\ ((forall d, In d (db w) -> searchTerm d <> term) ->
      db w' = db w ++ [mkDocument (Appwrite.unique_id (db w)) term 1 (id movie)
                         (Appwrite.image_prefix
                          ++ template_of_nullable (poster_path movie))%string]
      /\ length (db w') = S (length (db w)))
  /\ (poster_path movie = None ->
      (Appwrite.image_prefix ++ template_of_nullable (poster_path movie))%string
      = "https://image.tmdb.org/t/p/w500null")
  /\ NoDup (map doc_id (db w'))
  /\ ui w' = ui w
  /\ result (Appwrite.updateSearchCount term movie) env w = Normal tt.
Proof.
  intros Hup Hnd w'.
  assert (Hdb := updateSearchCount_db env w term movie Hup). fold w' in Hdb.
  split; [|split; [|split; [|split]]].
  - intros pre doc post E Hdoc Hpre.
    destruct (select_equal_first term pre doc post Hpre Hdoc) as (more & Hs).
    rewrite E in Hdb, Hnd. rewrite Hs, has_id_found, set_count_here in Hdb
      by exact Hnd.
    rewrite Hdoc in Hdb. split; [exact Hdb|].
    split; [|apply add_one_exact].
    rewrite Hdb, E, !length_app. reflexivity.
  - intros Hnone. rewrite select_equal_none in Hdb by exact Hnone.
    split; [exact Hdb|]. rewrite Hdb, length_app. cbn. lia.
  - intros ->. reflexivity.
  - rewrite Hdb. destruct (select _ (db w)) as [|doc more].
    + rewrite map_app. cbn.
      apply NoDup_app; [exact Hnd | repeat constructor; intros [] |].
      intros n Hn [<-|[]]. now apply (unique_id_fresh (db w)).
    + destruct (existsb _ (db w)); [|exact Hnd].
      rewrite map_map.
      replace (map (fun x => doc_id (set_count (doc_id doc) (add_one (count doc)) x))
                   (db w)) with (map doc_id (db w)); [exact Hnd|].
      apply map_ext. intros d. unfold set_count.
      destruct (has_id (doc_id doc) d); reflexivity.
  - apply updateSearchCount_ui.
Qed.

(** A movie without a poster: the stored address ends in "null" and the
    call still succeeds. *)
Example updateSearchCount_null_poster :
  db (exec (updateSearchCount "lost film" Sample.untitled)
           (Sample.env_up FetchRejected) (Sample.world_of []))
  = [mkDocument 1 "lost film" 1 7 "https://image.tmdb.org/t/p/w500null"].
Proof. reflexivity. Qed.

(** When the list request fails the collection is left as it was and one
    line is logged. *)
Lemma updateSearchCount_store_down env w term movie :
  db_fails env OpList = true ->
  db (exec (updateSearchCount term movie) env w) = db w
  /\ length (console (exec (updateSearchCount term movie) env w))
     = S (length (console w)).
Proof.
  intros H. step_async. rewrite H. cbn. split; [reflexivity|].
  rewrite length_app. cbn. lia.
Qed.

End Upsert.

(** C1 on the specification's example: the first search of "dune" on an
    empty store creates one document with count 1, the second raises it to
    2 and creates none. *)
Lemma updateSearchCount_upsert_example :
  let env := Sample.env_up FetchRejected in
  let w1 := exec (Appwrite.updateSearchCount "dune" Sample.dune) env
                 (Sample.world_of []) in
  let w2 := exec (Appwrite.updateSearchCount "dune" Sample.dune) env w1 in
  db w1 = [mkDocument 1 "dune" 1 438631 "https://image.tmdb.org/t/p/w500/abc.jpg"]
  /\ db w2
     = [mkDocument 1 "dune" 2 438631 "https://image.tmdb.org/t/p/w500/abc.jpg"].
Proof.
  intros env w1 w2.
  assert (Hup : store_up env) by (intros op; reflexivity).
  destruct (updateSearchCount_upsert env (Sample.world_of []) "dune"
              Sample.dune Hup (NoDup_nil nat))
    as (_ & Hnew & _ & Hnd & _).
  destruct (Hnew (fun d (H : In d []) => False_ind _ H)) as [H1 _].
  fold w1 in H1, Hnd. cbn in H1.
  split; [exact H1|].
  destruct (updateSearchCount_upsert env w1 "dune" Sample.dune Hup Hnd)
    as (Hfound & _).
  destruct (Hfound [] (mkDocument 1 "dune" 1 438631
                         "https://image.tmdb.org/t/p/w500/abc.jpg") []
              H1 eq_refl (fun d (H : In d []) => False_ind _ H)) as [H2 _].
  exact H2.
Defined.

(** C1 as stated fails at a count of [2^53]: the search of "dune" writes
    the same count back, the count is not raised. *)
Lemma updateSearchCount_stalls_at_two53 :
  let before := [Sample.doc 1 "dune" 9007199254740992] in
  let after :=
    db (exec (Appwrite.updateSearchCount "dune" Sample.dune)
             (Sample.env_up FetchRejected) (Sample.world_of before)) in
  after = before
  /\ map count after <> map (fun d => (count d + 1)%Z) before.
Proof. vm_compute. split; [reflexivity | discriminate]. Qed.

(** ** The catalog query *)

Section CatalogQuery.

Import Summary.

#[local] Open Scope list_scope.

Lemma updateSearchCount_history env w term movie :
  history (exec (Appwrite.updateSearchCount term movie) env w)
  = history w ++ [mkObs (CallUpdateSearchCount term movie) (ui w)].
Proof.
  step_async.
  destruct (db_fails env OpList); cbn; [reflexivity|].
  destruct (Appwrite.select _ (db w)) as [|doc more]; cbn.
  - destruct (db_fails env OpCreate); reflexivity.
  - destruct (db_fails env OpUpdate); cbn; [reflexivity|].
    destruct (existsb _ (db w)); reflexivity.
Qed.

(** The world a call of [updateSearchCount] leaves, seen from the
    controller. *)
Lemma updateSearchCount_run env w term movie :
  exists w',
    Appwrite.updateSearchCount term movie env w = (w', Normal tt)
    /\ ui w' = ui w
    /\ history w'
       = history w ++ [mkObs (CallUpdateSearchCount term movie) (ui w)].
Proof.
  pose proof (updateSearchCount_ui env w term movie) as [Hu Hr].
  pose proof (updateSearchCount_history env w term movie) as Hh.
  unfold exec, result in *.
  destruct (Appwrite.updateSearchCount term movie env w) as [w' r].
  cbn in *. subst r. eauto.
Qed.

Create HintDb controller discriminated.

#[local] Arguments Appwrite.updateSearchCount : simpl never.

#[local] Hint Unfold App.fetch App.json App.record_top_result
  App.fetchMovies_try App.fetchMovies_catch App.fetchMovies
  App.search_effect : controller.

#[local] Hint Unfold exec result during bind ret throw try_catch try_finally
  get_env get_world modify set_ui set_db console_error observe
  setDebouncedSearchTerm setSearchTerm setMovieList setErrorMessage
  setIsLoading setTrendingMovies : controller.

(** Runs [fetchMovies] down to the answer of the catalog and splits on it;
    the call of [updateSearchCount] is kept as one step. *)
Ltac run_fetchMovies env w q :=
  autounfold with controller; cbn;
  destruct (net env (App.endpoint_of q)) as [|[] [|data]]; cbn;
  try reflexivity;
  destruct (strict_eq_string (Response data) "False"); cbn;
  try reflexivity;
  destruct q as [|c q]; cbn; try reflexivity;
  destruct (results data) as [| |[|top rest]]; cbn; try reflexivity;
  try match goal with
  | |- context [Appwrite.updateSearchCount ?t ?m ?e ?v] =>
      destruct (updateSearchCount_run e v t m) as (w1 & -> & Hu & Hh);
      cbn; cbn in Hu, Hh
  end.

Lemma fetchMovies_ui env w q :
  ui (exec (App.fetchMovies q) env w)
  = finished q (net env (App.endpoint_of q)) (ui w).
Proof.
  unfold finished, settled.
  run_fetchMovies env w q.
  rewrite Hu. reflexivity.
Qed.

Lemma fetchMovies_history env w q :
  history (exec (App.fetchMovies q) env w)
  = history w ++ calls q (net env (App.endpoint_of q)) (ui w).
Proof.
  unfold calls, top_result, started, showing.
  run_fetchMovies env w q.
  rewrite Hh, <- app_assoc. reflexivity.
Qed.

Lemma fetchMovies_result env w q :
  result (App.fetchMovies q) env w = Normal tt.
Proof. run_fetchMovies env w q. reflexivity. Qed.

Lemma skipn_past {A} (l r : list A) : skipn (length l) (l ++ r) = r.
Proof. induction l as [|x l IH]; cbn; [reflexivity | exact IH]. Qed.

Lemma fetchMovies_during env w q :
  during (App.fetchMovies q) env w = calls q (net env (App.endpoint_of q)) (ui w).
Proof. unfold during. rewrite fetchMovies_history. apply skipn_past. Qed.

Lemma search_effect_is_fetchMovies env w :
  App.search_effect env w = App.fetchMovies (debouncedSearchTerm (ui w)) env w.
Proof. reflexivity. Qed.

Lemma search_effect_during env w :
  during App.search_effect env w
  = during (App.fetchMovies (debouncedSearchTerm (ui w))) env w.
Proof. unfold during, exec. now rewrite search_effect_is_fetchMovies. Qed.

Lemma search_effect_ui env w :
  ui (exec App.search_effect env w)
  = ui (exec (App.fetchMovies (debouncedSearchTerm (ui w))) env w).
Proof. unfold exec. now rewrite search_effect_is_fetchMovies. Qed.

Lemma truthy_string q : truthy (JsString q) = true <-> q <> "".
Proof.
  cbn. destruct (String.eqb_spec q ""); cbn; split; congruence.
Qed.

(** C5. [fetchMovies] issues one request, to the endpoint chosen by the
    term: the discover endpoint for the empty term, the search endpoint
    followed by the encoded term otherwise. The encoding keeps unreserved
    characters, writes every other byte as [%XX], and decodes back to the
    term; "the dark knight" becomes "the%20dark%20knight". *)
Theorem fetchMovies_endpoint env w q :
  fetched (during (App.fetchMovies q) env w) = [App.endpoint_of q]
  /\ App.endpoint_of q
     = (if q =? "" then
          "https://api.themoviedb.org/3/discover/movie?sort_by=popularity.desc"
        else ("https://api.themoviedb.org/3/search/movie?query="
              ++ encodeURIComponent q)%string)
  /\ percent_decode (encodeURIComponent q) = Some q
  /\ all_chars url_safe (encodeURIComponent q) = true
  /\ encodeURIComponent "the dark knight" = "the%20dark%20knight".
Proof.
  repeat split.
  - rewrite fetchMovies_during. unfold calls.
    destruct (top_result q _) as [[top rest]|]; reflexivity.
  - unfold App.endpoint_of. cbn [truthy].
    destruct (q =? "")%string; reflexivity.
  - apply percent_decode_encode.
  - apply encodeURIComponent_safe.
Qed.

(** One execution run to its end: every call it makes (the request
    itself, and the recording of the search when there is one) sees
    [isLoading] true, there is at least one such call, it completes
    without an exception and leaves [isLoading] false. *)
Lemma fetchMovies_loading_flag env w q :
  during (App.fetchMovies q) env w <> []
  /\ Forall (fun o => isLoading (obs_ui o) = true)
            (during (App.fetchMovies q) env w)
  /\ result (App.fetchMovies q) env w = Normal tt
  /\ isLoading (ui (exec (App.fetchMovies q) env w)) = false.
Proof.
  rewrite fetchMovies_during, fetchMovies_ui, fetchMovies_result.
  unfold calls. repeat split; [discriminate|].
  destruct (top_result q _) as [[top rest]|]; repeat constructor.
Qed.

Lemma recorded_calls q r u :
  recorded (calls q r u)
  = match top_result q r with
    | Some (top, _) => [(q, top)]
    | None => []
    end.
Proof.
  unfold calls. destruct (top_result q r) as [[top rest]|]; reflexivity.
Qed.

(** When [top_result] finds a movie. *)
Lemma top_result_some q r m rest :
  top_result q r = Some (m, rest)
  <-> (q <> ""
       /\ exists data,
           r = FetchResponse true (BodyJson data)
           /\ strict_eq_string (Response data) "False" = false
           /\ results data = ResultsArray (m :: rest)).
Proof.
  unfold top_result. split.
  - destruct r as [|[] [|data]]; try discriminate.
    destruct (strict_eq_string (Response data) "False") eqn:F; [discriminate|].
    destruct (truthy (JsString q)) eqn:T; [|discriminate].
    destruct (results data) as [| |[|top more]] eqn:R; try discriminate.
    intros [= <- <-]. split; [now apply truthy_string|].
    exists data. auto.
  - intros (Hq & data & -> & -> & ->).
    apply truthy_string in Hq. now rewrite Hq.
Qed.

Lemma top_result_listed q r m rest before :
  top_result q r = Some (m, rest) -> fst (settled q r before) = m :: rest.
Proof.
  intros H. apply top_result_some in H as (_ & data & -> & F & R).
  unfold settled. now rewrite F, R.
Qed.

(** C7. The search effect calls [updateSearchCount] with [(t, m)] exactly
    when the settled term is not empty, [t] is that term, and the catalog
    answered with a success (success status, no failure flag) whose result
    list starts with [m]; [m] is then the first movie of the list shown;
    at most one such call is made. *)
Theorem updateSearchCount_invoked_iff env w :
  let term := debouncedSearchTerm (ui w) in
  (forall t m,
      In (t, m) (recorded (during App.search_effect env w))
      <-> (term <> ""
           /\ t = term
           /\ exists data rest,
               net env (App.endpoint_of term) = FetchResponse true (BodyJson data)
               /\ strict_eq_string (Response data) "False" = false
               /\ results data = ResultsArray (m :: rest)))
  /\ (forall t m,
         In (t, m) (recorded (during App.search_effect env w)) ->
         hd_error (movieList (ui (exec App.search_effect env w))) = Some m)
  /\ (length (recorded (during App.search_effect env w)) <= 1)%nat.
Proof.
  intros term.
  rewrite search_effect_during, search_effect_ui.
  rewrite fetchMovies_during, fetchMovies_ui, recorded_calls. fold term.
  set (r := net env (App.endpoint_of term)).
  destruct (top_result term r) as [[top rest]|] eqn:T.
  - pose proof (proj1 (top_result_some _ _ _ _) T) as (Hq & data & Hr & F & R).
    split; [|split; [|cbn; lia]].
    + intros t m. split.
      * intros [[= <- <-]|[]]. repeat split; eauto.
      * intros (_ & -> & d & more & Hr' & _ & R').
        rewrite Hr in Hr'. injection Hr' as <-.
        rewrite R in R'. injection R' as <- <-. now left.
    + intros t m [[= <- <-]|[]]. unfold finished. cbn [movieList].
      now rewrite (top_result_listed _ _ _ _ _ T).
  - split; [|split; [intros t m []|cbn; lia]].
    intros t m. split; [intros []|].
    intros (Hq & _ & d & more & Hr & F & R).
    assert (T' : top_result term r = Some (m, more))
      by (apply top_result_some; eauto).
    congruence.
Qed.

(** C10. A success of the catalog without the failure flag and without a
    [results] field, for a term that is not empty: the list is set to
    empty, reading [data.results.length] throws, and the controller ends
    with the generic error shown, not with an empty list of results; no
    search is recorded. *)
Theorem fetchMovies_missing_results env w q data :
  q <> "" ->
  net env (App.endpoint_of q) = FetchResponse true (BodyJson data) ->
  strict_eq_string (Response data) "False" = false ->
  results data = ResultsUndefined ->
  let u' := ui (exec (App.fetchMovies q) env w) in
  movieList u' = []
  /\ errorMessage u'
     = JsString "Error fetching movies. Please try again later."
  /\ isLoading u' = false
  /\ App.all_movies_view u'
     = App.ViewError (JsString "Error fetching movies. Please try again later.")
  /\ App.all_movies_view u' <> App.ViewMovies []
  /\ recorded (during (App.fetchMovies q) env w) = [].
Proof.
  intros Hq Hnet Hflag Hres u'. subst u'.
  rewrite fetchMovies_ui, fetchMovies_during, Hnet.
  unfold finished, settled, calls, top_result.
  rewrite Hflag, Hres.
  apply truthy_string in Hq. rewrite Hq. cbn.
  repeat split. discriminate.
Qed.

(** C10 at a payload that is the empty object, for the term "batman". *)
Lemma fetchMovies_missing_results_example :
  let env := Sample.env_up (Sample.ok_with ResultsUndefined) in
  let u' := ui (exec (App.fetchMovies "batman") env
                     (Sample.world_showing Sample.dune)) in
  movieList u' = []
  /\ errorMessage u'
     = JsString "Error fetching movies. Please try again later."
  /\ App.render u'
     = Normal (false, App.ViewError
                 (JsString "Error fetching movies. Please try again later.")).
Proof.
  intros env u'.
  destruct (fetchMovies_missing_results env (Sample.world_showing Sample.dune)
              "batman" (mkPayload JsUndefined JsUndefined ResultsUndefined)
              ltac:(discriminate) eq_refl eq_refl eq_refl)
    as (Hm & He & Hl & Hv & _).
  fold u' in Hm, He, Hl, Hv.
  split; [exact Hm|]. split; [exact He|].
  unfold App.render. rewrite Hv. reflexivity.
Defined.

(** C4, with the success status the claim leaves out. A response with
    [ok] and [Response === "False"] in its payload: [errorMessage] becomes
    [data.Error || "Failed to fetch movies"], that is the server's message
    when it is a non-empty string and the fallback when it is missing; the
    list is emptied and [isLoading] ends false. *)
Theorem fetchMovies_application_error env w q data :
  net env (App.endpoint_of q) = FetchResponse true (BodyJson data) ->
  Response data = JsString "False" ->
  let u' := ui (exec (App.fetchMovies q) env w) in
  errorMessage u' = or_else (Error data) (JsString "Failed to fetch movies")
  /\ (forall msg, Error data = JsString msg -> msg <> "" ->
                  errorMessage u' = JsString msg)
  /\ (Error data = JsUndefined ->
      errorMessage u' = JsString "Failed to fetch movies")
  /\ movieList u' = []
  /\ isLoading u' = false.
Proof.
  intros Hnet Hflag u'. subst u'.
  rewrite fetchMovies_ui, Hnet. unfold finished, settled.
  rewrite Hflag. cbn [strict_eq_string]. rewrite String.eqb_refl. cbn [fst snd].
  cbn [errorMessage movieList isLoading].
  repeat split.
  - intros msg -> Hmsg. unfold or_else.
    apply truthy_string in Hmsg. now rewrite Hmsg.
  - intros ->. reflexivity.
Qed.

(** C4 on the specification's example: the payload
    [{Response: "False", Error: "Request limit reached"}]. *)
Lemma fetchMovies_application_error_example :
  let env := Sample.env_up
               (FetchResponse true
                  (BodyJson (mkPayload (JsString "False")
                               (JsString "Request limit reached")
                               ResultsUndefined))) in
  let u' := ui (exec (App.fetchMovies "batman") env
                     (Sample.world_showing Sample.dune)) in
  errorMessage u' = JsString "Request limit reached"
  /\ movieList u' = []
  /\ isLoading u' = false.
Proof.
  intros env u'.
  destruct (fetchMovies_application_error env
              (Sample.world_showing Sample.dune) "batman"
              (mkPayload (JsString "False") (JsString "Request limit reached")
                         ResultsUndefined) eq_refl eq_refl)
    as (He & _ & _ & Hm & Hl).
  fold u' in He, Hm, Hl. repeat split; assumption.
Defined.

(** C4 as stated fails: the same flag and message in a response whose
    status is not a success. The status is tested first; the message shown
    is the generic one and the list keeps the movie it had. *)
Lemma application_flag_with_failed_status :
  let data := mkPayload (JsString "False") (JsString "Invalid API key!")
                        ResultsUndefined in
  let env := Sample.env_up (FetchResponse false (BodyJson data)) in
  let u' := ui (exec (App.fetchMovies "batman") env
                     (Sample.world_showing Sample.dune)) in
  Response data = JsString "False"
  /\ errorMessage u' <> Error data
  /\ errorMessage u' <> JsString "Failed to fetch movies"
  /\ movieList u' <> [].
Proof. cbn. repeat split; discriminate. Qed.

(** C2, as the code has it. An application-level failure shows the
    server's message (or the fallback) and empties the list. A failure that
    is thrown (the request rejected, a status that is not a success, a body
    that is not JSON) shows the generic message of the [catch] block, not
    the message of the exception. *)
Theorem fetchMovies_error_message env w q :
  let u' := ui (exec (App.fetchMovies q) env w) in
  match net env (App.endpoint_of q) with
  | FetchResponse true (BodyJson data) =>
      strict_eq_string (Response data) "False" = true ->
      errorMessage u'
      = or_else (Error data) (JsString "Failed to fetch movies")
      /\ movieList u' = []
  | _ =>
      errorMessage u'
      = JsString "Error fetching movies. Please try again later."
  end.
Proof.
  intros u'. subst u'. rewrite fetchMovies_ui. unfold finished, settled.
  destruct (net env (App.endpoint_of q)) as [|[] [|data]]; cbn;
    try reflexivity.
  intros ->. cbn. split; reflexivity.
Qed.

(** C2 at an application-level failure and at a failed status. *)
Lemma fetchMovies_error_message_example :
  let flagged := Sample.env_up
                   (FetchResponse true
                      (BodyJson (mkPayload (JsString "False")
                                   (JsString "Request limit reached")
                                   ResultsUndefined))) in
  let failed := Sample.env_up (FetchResponse false BodyInvalid) in
  let w := Sample.world_showing Sample.dune in
  (errorMessage (ui (exec (App.fetchMovies "batman") flagged w))
   = JsString "Request limit reached"
   /\ movieList (ui (exec (App.fetchMovies "batman") flagged w)) = [])
  /\ errorMessage (ui (exec (App.fetchMovies "batman") failed w))
     = JsString "Error fetching movies. Please try again later.".
Proof.
  intros flagged failed w. split.
  - exact (fetchMovies_error_message flagged w "batman" eq_refl).
  - exact (fetchMovies_error_message failed w "batman").
Defined.

(** C2 as stated fails at a failed status: the query throws an error with
    the message "Failed to fetch movies", the controller shows another
    message, and the list keeps the movie it had. *)
Lemma transport_failure_keeps_list :
  let env := Sample.env_up (FetchResponse false BodyInvalid) in
  let w := Sample.world_showing Sample.dune in
  let u' := ui (exec (App.fetchMovies "batman") env w) in
  result (App.fetchMovies_try "batman") env w
  = Thrown (mkExn "Error" "Failed to fetch movies")
  /\ errorMessage u' <> JsString "Failed to fetch movies"
  /\ movieList u' = [Sample.dune]
  /\ movieList u' <> [].
Proof. cbn. repeat split; discriminate. Qed.

End CatalogQuery.

(** ** The debounce of the search input *)

Section Debounce.

Import Session.

#[local] Open Scope list_scope.
#[local] Open Scope Z_scope.

Implicit Types (a : Mounted) (edits rest : list (Z * string)).

Lemma last_cons {A} (l : list A) (x d : A) : last (x :: l) d = last l x.
Proof.
  revert x d. induction l as [|y l IH]; intros x d; [reflexivity|].
  change (last (x :: y :: l) d) with (last (y :: l) d).
  now rewrite (IH y d), (IH y x).
Qed.

(** An edit that changes the input while no timeout is due re-arms the
    timeout and touches nothing but the raw term. *)
Lemma input_rearms env a t v :
  quiet_at t a = true ->
  (v =? raw a)%string = false ->
  input env a (t, v)
  = mkMounted (exec (setSearchTerm v) env (world a))
              (Some (t + debounce_ms)) (propagated a).
Proof.
  intros Hq Hv. unfold input, advance, quiet_at in *. cbn [fst snd].
  destruct (timer a) as [d|].
  - apply Z.ltb_lt in Hq.
    destruct (Z.leb_spec d t); [lia|].
    unfold change. fold (raw a). now rewrite Hv.
  - unfold change. fold (raw a). now rewrite Hv.
Qed.

(** While edits keep coming inside the window, the timeout is pushed back
    and nothing is propagated. *)
Lemma rapid_edits_defer env edits :
  forall a t,
    timer a = Some (t + debounce_ms) ->
    rapid t edits = true ->
    changes (raw a) edits = true ->
    let a' := fold_left (input env) edits a in
    timer a' = Some (last (map fst edits) t + debounce_ms)
    /\ raw a' = last (map snd edits) (raw a)
    /\ propagated a' = propagated a
    /\ settledTerm a' = settledTerm a
    /\ history (world a') = history (world a).
Proof.
  induction edits as [|[t' v'] edits IH]; intros a t Ht Hr Hc.
  - cbn. auto.
  - cbn [rapid] in Hr. cbn [changes] in Hc.
    apply andb_prop in Hr as [Hr Hr']. apply andb_prop in Hr as [Hlo Hhi].
    apply andb_prop in Hc as [Hv Hc]. apply negb_true_iff in Hv.
    apply Z.leb_le in Hlo. apply Z.ltb_lt in Hhi.
    assert (Hq : quiet_at t' a = true).
    { unfold quiet_at. rewrite Ht. apply Z.ltb_lt. exact Hhi. }
    cbn [fold_left]. rewrite (input_rearms env a t' v' Hq Hv).
    set (a1 := mkMounted _ _ _).
    specialize (IH a1 t' eq_refl Hr' Hc).
    destruct IH as (I1 & I2 & I3 & I4 & I5).
    cbn [map fst snd]. rewrite !last_cons.
    repeat split; assumption.
Qed.

Lemma rapid_firstn k t edits :
  rapid t edits = true -> rapid t (firstn k edits) = true.
Proof.
  revert t edits. induction k as [|k IH]; intros t [|[t' v'] edits] H;
    cbn in *; try reflexivity.
  apply andb_prop in H as [H H']. rewrite H. cbn. now apply IH.
Qed.

Lemma changes_firstn k v edits :
  changes v edits = true -> changes v (firstn k edits) = true.
Proof.
  revert v edits. induction k as [|k IH]; intros v [|[t' v'] edits] H;
    cbn in *; try reflexivity.
  apply andb_prop in H as [H H']. rewrite H. cbn. now apply IH.
Qed.

Lemma fetched_app h1 h2 : fetched (h1 ++ h2) = fetched h1 ++ fetched h2.
Proof. apply flat_map_app. Qed.

Lemma fetched_calls q r u : fetched (Summary.calls q r u) = [App.endpoint_of q].
Proof.
  unfold Summary.calls.
  destruct (Summary.top_result q r) as [[top more]|]; reflexivity.
Qed.

(** What the timeout does when it runs. *)
Lemma fire_effect env d a :
  let a' := fire env d a in
  propagated a' = propagated a ++ [(d, raw a)]
  /\ timer a' = None
  /\ settledTerm a' = raw a
  /\ fetched (history (world a'))
     = fetched (history (world a))
       ++ (if (raw a =? settledTerm a)%string then []
           else [App.endpoint_of (raw a)]).
Proof.
  unfold fire, raw, settledTerm. cbn [propagated timer world].
  split; [reflexivity|]. split; [reflexivity|].
  destruct (String.eqb_spec (rawSearchTerm (ui (world a)))
                            (debouncedSearchTerm (ui (world a)))) as [E|E].
  - split; [now rewrite E | now rewrite app_nil_r].
  - set (v := rawSearchTerm (ui (world a))).
    assert (X : exec (setDebouncedSearchTerm v ;; App.search_effect) env (world a)
                = exec (App.fetchMovies v) env
                       (exec (setDebouncedSearchTerm v) env (world a)))
      by reflexivity.
    rewrite X, fetchMovies_ui, fetchMovies_history, fetched_app, fetched_calls.
    split; reflexivity.
Qed.

(** After teardown no timeout runs, however long one waits. *)
Lemma unmount_cancels env a t : advance env t (unmount a) = unmount a.
Proof. reflexivity. Qed.

(** A burst of edits from a state with no timeout due: after any number of
    them the timeout waits for the window of the latest one. *)
Lemma burst_defers env a t1 v1 rest :
  quiet_at t1 a = true ->
  changes (raw a) ((t1, v1) :: rest) = true ->
  rapid t1 rest = true ->
  let a' := fold_left (input env) ((t1, v1) :: rest) a in
  timer a' = Some (last (map fst rest) t1 + debounce_ms)
  /\ raw a' = last (map snd rest) v1
  /\ propagated a' = propagated a
  /\ settledTerm a' = settledTerm a
  /\ history (world a') = history (world a).
Proof.
  intros Hq Hc Hr. cbn [changes] in Hc.
  apply andb_prop in Hc as [Hv Hc]. apply negb_true_iff in Hv.
  cbn [fold_left]. rewrite (input_rearms env a t1 v1 Hq Hv).
  set (a1 := mkMounted _ _ _).
  exact (rapid_edits_defer env rest a1 t1 eq_refl Hr Hc).
Qed.

(** C9, with the condition the claim leaves out. Edits that each change
    the input and each come less than 500 units after the one before, from
    a state with no timeout due: while they go on nothing is propagated and
    no request is made; once 500 units have passed after the last one, the
    callback has run once, with the last value, at the end of that window,
    and the settled term is the last value. One request, for the last
    value, is made when that value differs from the term settled before;
    none when it is the same. *)
Theorem debounce_settles_once env a t1 v1 rest stop :
  quiet_at t1 a = true ->
  changes (raw a) ((t1, v1) :: rest) = true ->
  rapid t1 rest = true ->
  let tn := last (map fst rest) t1 in
  let vn := last (map snd rest) v1 in
  tn + debounce_ms <= stop ->
  let a' := run env a ((t1, v1) :: rest) stop in
  (forall k,
      let mid := fold_left (input env) (firstn k ((t1, v1) :: rest)) a in
      propagated mid = propagated a
      /\ fetched (history (world mid)) = fetched (history (world a)))
  /\ propagated a' = propagated a ++ [(tn + debounce_ms, vn)]
  /\ settledTerm a' = vn
  /\ timer a' = None
  /\ fetched (history (world a'))
     = fetched (history (world a))
       ++ (if (vn =? settledTerm a)%string then []
           else [App.endpoint_of vn]).
Proof.
  intros Hq Hc Hr tn vn Hstop a'. split.
  - intros [|k]; cbn [firstn]; [cbn; auto|].
    assert (Hc' : changes (raw a) ((t1, v1) :: firstn k rest) = true).
    { cbn [changes] in *. apply andb_prop in Hc as [Hv Hc].
      rewrite Hv. cbn. now apply changes_firstn. }
    destruct (burst_defers env a t1 v1 (firstn k rest) Hq Hc'
                (rapid_firstn k t1 rest Hr)) as (_ & _ & Hp & _ & Hh).
    cbv zeta. now rewrite Hp, Hh.
  - destruct (burst_defers env a t1 v1 rest Hq Hc Hr)
      as (Ht & Hraw & Hp & Hs & Hh).
    subst a'. unfold run.
    set (b := fold_left (input env) ((t1, v1) :: rest) a) in *.
    fold tn in Ht. fold vn in Hraw.
    unfold advance. rewrite Ht.
    destruct (Z.leb_spec (tn + debounce_ms) stop); [|lia].
    destruct (fire_effect env (tn + debounce_ms) b) as (F1 & F2 & F3 & F4).
    rewrite F1, F2, F3, F4, Hraw, Hp, Hs, Hh. auto.
Qed.

(** C9 on the specification's example: "inception" typed a letter every
    200 units into the mounted component. Besides the request made at
    mount, one request is made, for "inception". *)
Lemma debounce_settles_once_example :
  let env := Sample.env_up (Sample.ok_with (ResultsArray [Sample.dune])) in
  let a := advance env 600 (mount env []) in
  let typed := [(1200, "in"); (1400, "inc"); (1600, "ince"); (1800, "incep");
                (2000, "incept"); (2200, "incepti"); (2400, "inceptio");
                (2600, "inception")]%string in
  let a' := run env a ((1000, "i"%string) :: typed) 3100 in
  propagated a' = [(500, ""%string); (3100, "inception"%string)]
  /\ settledTerm a' = "inception"%string
  /\ fetched (history (world a'))
     = ["https://api.themoviedb.org/3/discover/movie?sort_by=popularity.desc";
        "https://api.themoviedb.org/3/search/movie?query=inception"]%string.
Proof.
  intros env a typed a'.
  destruct (debounce_settles_once env a 1000 "i"%string typed 3100
              eq_refl eq_refl eq_refl ltac:(vm_compute; discriminate))
    as (_ & Hp & Hs & _ & Hf).
  fold a' in Hp, Hs, Hf.
  split; [exact Hp|]. split; [exact Hs | exact Hf].
Defined.

(** C9 as stated fails: a letter typed and deleted inside the window. The
    last value is the term already settled, the callback runs with it and
    changes nothing, and no request at all is made for it. *)
Lemma debounce_no_query_for_unchanged_term :
  let env := Sample.env_up (Sample.ok_with (ResultsArray [Sample.dune])) in
  let a := advance env 600 (mount env []) in
  let a' := run env a [(1000, "a"%string); (1200, ""%string)] 2000 in
  quiet_at 1000 a = true
  /\ changes (raw a) [(1000, "a"%string); (1200, ""%string)] = true
  /\ rapid 1000 [(1200, ""%string)] = true
  /\ propagated a' = propagated a ++ [(1700, ""%string)]
  /\ fetched (history (world a')) = fetched (history (world a))
  /\ length (fetched (history (world a')))
     <> S (length (fetched (history (world a)))).
Proof. vm_compute. repeat split; discriminate. Qed.

End Debounce.

(** * Further properties *)

(** ** The store client under failures and repeated searches *)

Section StoreClient.

Import Appwrite Scenario.

Implicit Types (store pre post : Store) (doc d : Document) (term : string).

#[local] Open Scope list_scope.

Lemma select_equal_in term store d :
  In d (select [equal_searchTerm term] store) ->
  In d store /\ searchTerm d = term.
Proof.
  rewrite select_equal. intros H. apply in_firstn in H.
  apply filter_In in H as [H T]. split; [exact H|].
  unfold names in T. now apply String.eqb_eq.
Qed.


Lemma has_id_in store d : In d store -> existsb (has_id (doc_id d)) store = true.
Proof.
  intros H. apply existsb_exists. exists d. split; [exact H|].
  unfold has_id. apply Nat.eqb_refl.
Qed.

Lemma updateSearchCount_leaves env w term movie :
  db (exec (updateSearchCount term movie) env w)
  = upserted env term movie (db w).
Proof.
  unfold upserted, request_fails. step_async.
  destruct (db_fails env OpList); cbn; [reflexivity|].
  destruct (select _ (db w)) as [|doc more] eqn:S; cbn.
  - destruct (db_fails env OpCreate); reflexivity.
  - destruct (db_fails env OpUpdate); cbn; [reflexivity|].
    assert (I : In doc (db w)).
    { apply (select_equal_in term). rewrite S. now left. }
    now rewrite (has_id_in _ _ I).
Qed.

Lemma updateSearchCount_console env w term movie :
  length (console (exec (updateSearchCount term movie) env w))
  = if request_fails env term (db w) then S (length (console w))
    else length (console w).
Proof.
  unfold request_fails. step_async.
  destruct (db_fails env OpList); cbn; [rewrite length_app; cbn; lia|].
  destruct (select _ (db w)) as [|doc more] eqn:S; cbn.
  - destruct (db_fails env OpCreate); cbn; [rewrite length_app; cbn; lia|].
    reflexivity.
  - destruct (db_fails env OpUpdate); cbn; [rewrite length_app; cbn; lia|].
    assert (I : In doc (db w)).
    { apply (select_equal_in term). rewrite S. now left. }
    now rewrite (has_id_in _ _ I).
Qed.

(** X1. Whatever the store answers, [updateSearchCount] completes without
    an exception and leaves the cells of the controller alone. When one of
    its requests fails the collection is as it was and one line is logged;
    when none fails nothing is logged. *)
Theorem updateSearchCount_contains_failures env w term movie :
  let w' := exec (Appwrite.updateSearchCount term movie) env w in
  result (Appwrite.updateSearchCount term movie) env w = Normal tt
  /\ ui w' = ui w
  /\ (if request_fails env term (db w)
      then db w' = db w /\ length (console w') = S (length (console w))
      else length (console w') = length (console w)).
Proof.
  intros w'. subst w'.
  destruct (updateSearchCount_ui env w term movie) as [Hu Hr].
  split; [exact Hr|]. split; [exact Hu|].
  rewrite updateSearchCount_console, updateSearchCount_leaves.
  unfold upserted. destruct (request_fails env term (db w)); auto.
Qed.

Lemma upserted_ids env term movie store :
  NoDup (map doc_id store) -> NoDup (map doc_id (upserted env term movie store)).
Proof.
  intros H. unfold upserted.
  destruct (request_fails env term store); [exact H|].
  destruct (select _ store) as [|doc more].
  - rewrite map_app. cbn.
    apply NoDup_app; [exact H | repeat constructor; intros [] |].
    intros n Hn [<-|[]]. now apply (unique_id_fresh store).
  - rewrite map_map.
    replace (map (fun x => doc_id (set_count (doc_id doc) (add_one (count doc)) x))
                 store) with (map doc_id store); [exact H|].
    apply map_ext. intros d. unfold set_count.
    destruct (has_id (doc_id doc) d); reflexivity.
Qed.








Lemma exec_then {A B} (c : M A) (k : A -> M B) env w a :
  result c env w = Normal a ->
  exec (x <- c ;; k x) env w = exec (k a) env (exec c env w).
Proof.
  unfold exec, result, bind. destruct (c env w) as [w' r]. cbn.
  intros ->. reflexivity.
Qed.

Lemma record_all_step env w term m ms :
  exec (record_all term (m :: ms)) env w
  = exec (record_all term ms) env (exec (updateSearchCount term m) env w).
Proof.
  cbn [record_all].
  apply (exec_then (updateSearchCount term m) (fun _ => record_all term ms)
                   env w tt).
  apply updateSearchCount_ui.
Qed.

Lemma upserted_found env term movie pre doc post :
  store_up env ->
  NoDup (map doc_id (pre ++ doc :: post)) ->
  (forall d, In d pre -> searchTerm d <> term) ->
  searchTerm doc = term ->
  upserted env term movie (pre ++ doc :: post)
  = pre ++ mkDocument (doc_id doc) term (add_one (count doc)) (movie_id doc)
                      (poster_url doc) :: post.
Proof.
  intros Hup Hnd Hpre Hdoc. unfold upserted, request_fails.
  destruct (select_equal_first term pre doc post Hpre Hdoc) as (more & ->).
  rewrite !Hup. cbn [orb]. rewrite set_count_here by exact Hnd.
  now rewrite Hdoc.
Qed.

(** Later searches of a term whose document is the last of the collection
    only raise its count. *)
Lemma record_all_bumps env term ms :
  store_up env ->
  forall w pre doc,
    db w = pre ++ [doc] ->
    NoDup (map doc_id (db w)) ->
    (forall d, In d pre -> searchTerm d <> term) ->
    searchTerm doc = term ->
    (- two53 <= count doc)%Z ->
    (count doc + Z.of_nat (length ms) <= two53)%Z ->
    db (exec (record_all term ms) env w)
    = pre ++ [mkDocument (doc_id doc) term (count doc + Z.of_nat (length ms))
                (movie_id doc) (poster_url doc)].
Proof.
  intros Hup. induction ms as [|m ms IH];
    intros w pre doc E Hnd Hpre Hdoc Hlo Hhi.
  - cbn. rewrite E, Z.add_0_r, <- Hdoc. now destruct doc.
  - rewrite record_all_step.
    set (w1 := exec (updateSearchCount term m) env w).
    cbn [length] in Hhi.
    assert (E1 : db w1 = pre ++ [mkDocument (doc_id doc) term (count doc + 1)
                                   (movie_id doc) (poster_url doc)]).
    { subst w1. rewrite updateSearchCount_leaves, E.
      rewrite E in Hnd. rewrite <- add_one_exact by lia.
      now apply upserted_found. }
    assert (Hnd1 : NoDup (map doc_id (db w1))).
    { subst w1. rewrite updateSearchCount_leaves. now apply upserted_ids. }
    rewrite (IH w1 pre _ E1 Hnd1 Hpre eq_refl);
      cbn [doc_id count movie_id poster_url length]; [|lia|lia].
    do 3 f_equal. lia.
Qed.

(** X4. With the store answering and identifiers distinct, the searches of
    a term the collection does not have, one after the other and no more
    than [2^53] of them (the range in which the program's addition is
    exact), leave one new document: its count is the number of searches,
    and its movie and poster are those of the first search, whatever the
    later ones found. *)
Theorem record_all_counts_searches env w term m ms :
  store_up env ->
  NoDup (map doc_id (db w)) ->
  (forall d, In d (db w) -> searchTerm d <> term) ->
  (Z.of_nat (S (length ms)) <= two53)%Z ->
  db (exec (record_all term (m :: ms)) env w)
  = db w ++ [mkDocument (Appwrite.unique_id (db w)) term
               (Z.of_nat (S (length ms))) (id m)
               (Appwrite.image_prefix
                ++ template_of_nullable (poster_path m))%string].
Proof.
  intros Hup Hnd Hnone Hmany. rewrite record_all_step.
  set (w1 := exec (updateSearchCount term m) env w).
  assert (E1 : db w1 = db w ++ [mkDocument (unique_id (db w)) term 1 (id m)
                                 (image_prefix
                                  ++ template_of_nullable (poster_path m))%string]).
  { subst w1. rewrite updateSearchCount_leaves. unfold upserted, request_fails.
    rewrite (select_equal_none term (db w) Hnone), !Hup. reflexivity. }
  assert (Hnd1 : NoDup (map doc_id (db w1))).
  { subst w1. rewrite updateSearchCount_leaves. now apply upserted_ids. }
  rewrite (record_all_bumps env term ms Hup w1 (db w) _ E1 Hnd1 Hnone eq_refl);
    cbn [doc_id count movie_id poster_url]; [|unfold two53; lia|lia].
  do 3 f_equal. lia.
Qed.

(** X4 on an empty store: three searches of "dune", the first finding a
    movie with a poster and the others one without. *)
Lemma record_all_counts_searches_example :
  db (exec (record_all "dune" [Sample.dune; Sample.untitled; Sample.untitled])
           (Sample.env_up FetchRejected) (Sample.world_of []))
  = [mkDocument 1 "dune" 3 438631 "https://image.tmdb.org/t/p/w500/abc.jpg"].
Proof.
  assert (Hup : store_up (Sample.env_up FetchRejected))
    by (intros op; reflexivity).
  rewrite (record_all_counts_searches (Sample.env_up FetchRejected)
             (Sample.world_of []) "dune" Sample.dune
             [Sample.untitled; Sample.untitled] Hup (NoDup_nil nat)
             (fun d (H : In d []) => False_ind _ H)
             ltac:(vm_compute; discriminate)).
  reflexivity.
Defined.

Lemma same_id_same_doc store d e :
  NoDup (map doc_id store) -> In d store -> In e store ->
  doc_id d = doc_id e -> d = e.
Proof.
  induction store as [|x store IH]; intros Hnd Hd He E; [destruct Hd|].
  cbn in Hnd. apply NoDup_cons_iff in Hnd as [Hx Hnd].
  destruct Hd as [->|Hd], He as [->|He].
  - reflexivity.
  - exfalso. apply Hx. rewrite E. now apply in_map.
  - exfalso. apply Hx. rewrite <- E. now apply in_map.
  - now apply IH.
Qed.

(** X5. With document identifiers distinct, a search never touches the
    document of another term, whatever the store answers: the documents
    that do not carry the term are the same before and after, in content
    and in number. *)
Theorem updateSearchCount_spares_other_terms env w term movie :
  NoDup (map doc_id (db w)) ->
  filter (fun d => negb (names term d))
         (db (exec (Appwrite.updateSearchCount term movie) env w))
  = filter (fun d => negb (names term d)) (db w).
Proof.
  intros Hnd. rewrite updateSearchCount_leaves. unfold upserted.
  destruct (request_fails env term (db w)); [reflexivity|].
  destruct (select _ (db w)) as [|doc more] eqn:S.
  - rewrite filter_app. cbn. unfold names at 2. cbn [searchTerm].
    rewrite String.eqb_refl. cbn. apply app_nil_r.
  - assert (I : In doc (db w) /\ searchTerm doc = term).
    { apply select_equal_in. rewrite S. now left. }
    destruct I as [I T].
    assert (G : forall l, incl l (db w) ->
                filter (fun d => negb (names term d))
                       (map (set_count (doc_id doc) (add_one (count doc))) l)
                = filter (fun d => negb (names term d)) l).
    { induction l as [|e l IH]; intros Hl; [reflexivity|].
      assert (He : In e (db w)) by (apply Hl; now left).
      assert (Hl' : incl l (db w)) by (intros x Hx; apply Hl; now right).
      cbn [map]. unfold set_count at 1, has_id.
      destruct (Nat.eqb_spec (doc_id e) (doc_id doc)) as [E|E].
      - assert (e = doc) as -> by (now apply (same_id_same_doc (db w))).
        assert (N1 : names term doc = true)
          by (unfold names; rewrite T; apply String.eqb_refl).
        assert (N2 : names term (mkDocument (doc_id doc) (searchTerm doc)
                                   (add_one (count doc)) (movie_id doc)
                                   (poster_url doc)) = true) by exact N1.
        cbn [filter]. rewrite N1, N2. cbn [negb]. now apply IH.
      - cbn [filter]. now rewrite (IH Hl'). }
    apply G. apply incl_refl.
Qed.

(** X5 on the store of five terms: a search of "heat" leaves the four
    other documents. *)
Lemma updateSearchCount_spares_other_terms_example :
  filter (fun d => negb (names "heat" d))
         (db (exec (Appwrite.updateSearchCount "heat" Sample.dune)
                   (Sample.env_up FetchRejected)
                   (Sample.world_of Sample.five_terms)))
  = [Sample.doc 1 "dune" 3; Sample.doc 2 "batman" 1;
     Sample.doc 3 "inception" 5; Sample.doc 4 "alien" 2].
Proof.
  rewrite (updateSearchCount_spares_other_terms (Sample.env_up FetchRejected)
             (Sample.world_of Sample.five_terms) "heat" Sample.dune).
  - reflexivity.
  - cbn. repeat constructor; cbn; intuition discriminate.
Defined.

(** X6. [getTrendingMovies] only reads and never throws: whatever the
    store answers, the collection and the cells of the controller are as
    they were. It returns [undefined] exactly when the list request fails,
    and then logs one line; otherwise it logs nothing. *)
Theorem getTrendingMovies_reads_only env w :
  let w' := exec Appwrite.getTrendingMovies env w in
  db w' = db w
  /\ ui w' = ui w
  /\ (result Appwrite.getTrendingMovies env w = Normal TrendingUndefined
      <-> db_fails env OpList = true)
  /\ (exists t, result Appwrite.getTrendingMovies env w = Normal t)
  /\ length (console w')
     = (if db_fails env OpList then S (length (console w))
        else length (console w)).
Proof.
  step_async. destruct (db_fails env OpList); cbn.
  - rewrite length_app. cbn. repeat split; eauto; lia.
  - repeat split; eauto; discriminate.
Qed.

End StoreClient.

(** ** The controller: what is shown after a query *)

Section Shown.

Import Summary Scenario.

#[local] Open Scope list_scope.
#[local] Arguments Appwrite.updateSearchCount : simpl never.

Lemma updateSearchCount_run_db env w term movie :
  exists w',
    Appwrite.updateSearchCount term movie env w = (w', Normal tt)
    /\ db w' = upserted env term movie (db w).
Proof.
  pose proof (updateSearchCount_ui env w term movie) as [_ Hr].
  pose proof (updateSearchCount_leaves env w term movie) as Hd.
  unfold exec, result in *.
  destruct (Appwrite.updateSearchCount term movie env w) as [w' r].
  cbn in *. subst r. eauto.
Qed.

(** The store after a query: written by the recording of the search, when
    there is one. *)
Lemma fetchMovies_db env w q :
  db (exec (App.fetchMovies q) env w)
  = match top_result q (net env (App.endpoint_of q)) with
    | Some (top, _) => upserted env q top (db w)
    | None => db w
    end.
Proof.
  unfold top_result.
  unfold exec, App.fetchMovies, App.fetchMovies_try, App.fetchMovies_catch,
    App.fetch, App.json, App.record_top_result, bind, ret, throw, try_catch,
    try_finally, get_env, modify, set_ui, console_error, observe,
    setMovieList, setErrorMessage, setIsLoading.
  cbn.
  destruct (net env (App.endpoint_of q)) as [|[] [|data]]; cbn;
    try reflexivity.
  destruct (strict_eq_string (Response data) "False"); cbn; try reflexivity.
  destruct q as [|c q]; cbn; try reflexivity.
  destruct (results data) as [| |[|top rest]]; cbn; try reflexivity.
  match goal with
  | |- context [Appwrite.updateSearchCount ?t ?m ?e ?v] =>
      destruct (updateSearchCount_run_db e v t m) as (w1 & -> & Hd)
  end.
  cbn. exact Hd.
Qed.

(** X7. The store is written by a query only when the term is not empty
    and the catalog answered with a success whose result list has a first
    movie: the discover query, a failed query and an empty answer never
    record anything. *)
Theorem fetchMovies_writes_only_on_hit env w q :
  db (exec (App.fetchMovies q) env w) <> db w ->
  q <> ""%string
  /\ exists data top rest,
      net env (App.endpoint_of q) = FetchResponse true (BodyJson data)
      /\ strict_eq_string (Response data) "False" = false
      /\ results data = ResultsArray (top :: rest).
Proof.
  rewrite fetchMovies_db.
  destruct (top_result q (net env (App.endpoint_of q))) as [[top rest]|] eqn:T;
    [|congruence].
  intros _. apply top_result_some in T as (Hq & data & Hn & F & R).
  split; [exact Hq|]. exists data, top, rest. auto.
Qed.

(** X7 at a search that does write: "dune" found, on an empty store. *)
Lemma fetchMovies_writes_only_on_hit_example :
  db (exec (App.fetchMovies "dune")
           (Sample.env_up (Sample.ok_with (ResultsArray [Sample.dune])))
           (Sample.world_of []))
  = [mkDocument 1 "dune" 1 438631 "https://image.tmdb.org/t/p/w500/abc.jpg"]
  /\ exists data top rest,
      Sample.ok_with (ResultsArray [Sample.dune])
      = FetchResponse true (BodyJson data)
      /\ results data = ResultsArray (top :: rest).
Proof.
  split; [reflexivity|].
  destruct (fetchMovies_writes_only_on_hit
              (Sample.env_up (Sample.ok_with (ResultsArray [Sample.dune])))
              (Sample.world_of []) "dune" ltac:(vm_compute; discriminate))
    as (_ & data & top & rest & Hn & _ & R).
  exists data, top, rest. split; [exact Hn | exact R].
Defined.

(** One execution run to its end: when the view after it is a list of
    movies, the list is the one the catalog returned. *)
Lemma fetchMovies_shows_fresh_list env w q l :
  App.all_movies_view (ui (exec (App.fetchMovies q) env w)) = App.ViewMovies l ->
  exists data,
    net env (App.endpoint_of q) = FetchResponse true (BodyJson data)
    /\ strict_eq_string (Response data) "False" = false
    /\ l = App.results_or_empty (results data).
Proof.
  rewrite fetchMovies_ui. unfold finished, settled, App.all_movies_view.
  cbn [isLoading errorMessage movieList].
  destruct (net env (App.endpoint_of q)) as [|[] [|data]];
    unfold App.generic_error; cbn; try discriminate.
  destruct (strict_eq_string (Response data) "False") eqn:F; cbn [fst snd].
  - unfold or_else. destruct (truthy (Error data)) eqn:T.
    + rewrite T. discriminate.
    + unfold App.fallback_error. cbn. discriminate.
  - destruct (results data) as [| |movies] eqn:R.
    + destruct (q =? "")%string; cbn; [|discriminate].
      intros H. injection H as <-. exists data. rewrite R. auto.
    + destruct (q =? "")%string; cbn; [|discriminate].
      intros H. injection H as <-. exists data. rewrite R. auto.
    + cbn. intros H. injection H as <-. exists data. rewrite R. auto.
Qed.

(** One execution run to its end: a success replaces whatever was shown
    before. *)
Lemma fetchMovies_recovers env w q data movies :
  net env (App.endpoint_of q) = FetchResponse true (BodyJson data) ->
  strict_eq_string (Response data) "False" = false ->
  results data = ResultsArray movies ->
  let u' := ui (exec (App.fetchMovies q) env w) in
  errorMessage u' = JsString ""
  /\ movieList u' = movies
  /\ App.all_movies_view u' = App.ViewMovies movies.
Proof.
  intros Hn F R u'. subst u'. rewrite fetchMovies_ui, Hn.
  unfold finished, settled, App.all_movies_view. rewrite F, R. cbn.
  repeat split.
Qed.

(** One execution run to its end: the cells after it do not depend on
    the store. *)
Lemma fetchMovies_ui_ignores_store env1 env2 w1 w2 q :
  net env1 (App.endpoint_of q) = net env2 (App.endpoint_of q) ->
  ui w1 = ui w2 ->
  ui (exec (App.fetchMovies q) env1 w1) = ui (exec (App.fetchMovies q) env2 w2).
Proof.
  intros Hn Hu. rewrite !fetchMovies_ui, Hn, Hu. reflexivity.
Qed.

Lemma trending_rows_ranks docs :
  map fst (MovieCard.trending_rows docs) = seq 1 (length docs).
Proof.
  unfold MovieCard.trending_rows.
  set (n := 1%nat). generalize n. clear n.
  induction docs as [|d docs IH]; intros n; cbn; [reflexivity|].
  now rewrite IH.
Qed.

(** X11. When the store answers the list request, [loadTrendingMovies]
    puts what [getTrendingMovies] returned into [trendingMovies] and the
    render does not throw: the trending section is shown exactly when the
    collection is not empty, its rows are ranked 1, 2, ... up to at most
    5, and the other section is as before. *)
Theorem loadTrendingMovies_shows_top env w :
  db_fails env OpList = false ->
  let w' := exec App.loadTrendingMovies env w in
  exists docs,
    trendingMovies (ui w') = TrendingDocs docs
    /\ result Appwrite.getTrendingMovies env w = Normal (TrendingDocs docs)
    /\ App.render (ui w')
       = Normal ((0 <? length (db w))%nat, App.all_movies_view (ui w))
    /\ map fst (MovieCard.trending_rows docs)
       = seq 1 (Nat.min 5 (length (db w)))
    /\ db w' = db w.
Proof.
  intros H w'. exists (firstn 5 (Appwrite.order_desc (db w))).
  assert (L : length (firstn 5 (Appwrite.order_desc (db w)))
              = Nat.min 5 (length (db w)))
    by now rewrite length_firstn, order_desc_length.
  split; [|split; [now apply getTrendingMovies_ok|]].
  - subst w'. step_async. rewrite H. cbn. now rewrite select_trending.
  - rewrite trending_rows_ranks, L. subst w'.
    split; [|split; [reflexivity|]].
    + step_async. rewrite H. cbn. rewrite select_trending.
      unfold App.render, App.trending_visible. cbn [trendingMovies].
      rewrite L. unfold App.all_movies_view. cbn.
      destruct (db w); reflexivity.
    + step_async. rewrite H. reflexivity.
Qed.

(** X11 on the store of five terms. *)
Lemma loadTrendingMovies_shows_top_example :
  exists docs,
    trendingMovies
      (ui (exec App.loadTrendingMovies (Sample.env_up FetchRejected)
                (Sample.world_of Sample.five_terms)))
    = TrendingDocs docs
    /\ map fst (MovieCard.trending_rows docs) = [1; 2; 3; 4; 5]%nat.
Proof.
  destruct (loadTrendingMovies_shows_top (Sample.env_up FetchRejected)
              (Sample.world_of Sample.five_terms) eq_refl)
    as (docs & Ht & _ & _ & Hr & _).
  exists docs. split; [exact Ht | exact Hr].
Defined.

End Shown.

(** ** The address of the request *)

Section Address.

Import Scenario.

Lemma string_app_inv (p a b : string) : (p ++ a = p ++ b)%string -> a = b.
Proof.
  induction p as [|c p IH]; cbn; [trivial|].
  intros H. injection H as H. now apply IH.
Qed.

Lemma encodeURIComponent_injective a b :
  encodeURIComponent a = encodeURIComponent b -> a = b.
Proof.
  intros H. apply (f_equal percent_decode) in H.
  rewrite !percent_decode_encode in H. now injection H.
Qed.

(** X12. Different terms are never sent to the same address: the address
    of the request determines the term (the empty term being the discover
    request). *)
Theorem endpoint_of_distinguishes q1 q2 :
  q1 <> q2 -> App.endpoint_of q1 <> App.endpoint_of q2.
Proof.
  intros Hne H. apply Hne. clear Hne.
  unfold App.endpoint_of, App.search_endpoint, App.discover_endpoint,
    App.API_BASE_URL in H.
  cbn [truthy] in H.
  destruct (q1 =? "")%string eqn:E1; destruct (q2 =? "")%string eqn:E2;
    cbn [negb] in H.
  - apply String.eqb_eq in E1, E2. congruence.
  - cbn in H. discriminate H.
  - cbn in H. discriminate H.
  - apply string_app_inv in H. apply string_app_inv in H.
    now apply encodeURIComponent_injective.
Qed.

(** X12 for two terms that differ by the case of a letter. *)
Lemma endpoint_of_distinguishes_example :
  App.endpoint_of "dune" <> App.endpoint_of "Dune".
Proof.
  apply (endpoint_of_distinguishes "dune" "Dune"). discriminate.
Defined.

Lemma occurs_app c a b : occurs c (a ++ b) = occurs c a || occurs c b.
Proof.
  induction a as [|d a IH]; cbn; [reflexivity|].
  now rewrite IH, orb_assoc.
Qed.

Lemma unsafe_not_in c s :
  url_safe c = false -> all_chars url_safe s = true -> occurs c s = false.
Proof.
  intros Hc. induction s as [|d s IH]; cbn; [reflexivity|].
  intros H. apply andb_prop in H as [Hd Hs].
  rewrite (IH Hs), orb_false_r.
  destruct (Ascii.eqb_spec d c) as [->|_]; [congruence | reflexivity].
Qed.

(** X13. No character that delimits the parts of an address (space, [&],
    [=], [?], [#], [/], [+], [:], [;], [,], [@], [$]) occurs in an encoded
    term: whatever is typed stays inside the value of the [query]
    parameter. *)
Theorem encoded_term_has_no_delimiter q :
  forallb (fun c => negb (occurs c (encodeURIComponent q))) delimiters = true.
Proof.
  pose proof (encodeURIComponent_safe q) as S.
  unfold delimiters. cbn [forallb].
  rewrite !unsafe_not_in by (reflexivity || exact S). reflexivity.
Qed.





End Address.

(** ** The card of a movie *)

Section Card.

Import Scenario MovieCard.

Lemma before_dash_app y rest :
  occurs "-" y = false -> before_dash (y ++ String "-" rest) = y.
Proof.
  induction y as [|c y IH]; cbn; [reflexivity|].
  intros H. apply orb_false_elim in H as [Hc Hy].
  rewrite Hc. f_equal. now apply IH.
Qed.

Lemma before_dash_none y : occurs "-" y = false -> before_dash y = y.
Proof.
  induction y as [|c y IH]; cbn; [reflexivity|].
  intros H. apply orb_false_elim in H as [Hc Hy].
  rewrite Hc. f_equal. now apply IH.
Qed.

(** X15. The year on a card is what the release date holds before its
    first dash: [y] for a date [y-...], the whole date when it has no dash,
    and "N/A" when the date is missing or empty. A date that starts with a
    dash gives an empty year, not "N/A". *)
Theorem release_year_before_first_dash y rest :
  occurs "-" y = false ->
  release_year (Some (y ++ String "-" rest)) = y
  /\ release_year (Some y) = (if y =? "" then "N/A" else y)
  /\ release_year None = "N/A".
Proof.
  intros H. split; [|split; [|reflexivity]].
  - unfold release_year. cbn [nullable truthy template_of_nullable].
    replace ((y ++ String "-" rest =? "")%string) with false
      by (destruct y; reflexivity).
    cbn [negb]. now apply before_dash_app.
  - unfold release_year. cbn [nullable truthy template_of_nullable].
    destruct (y =? "")%string; cbn [negb]; [reflexivity|].
    now apply before_dash_none.
Qed.

(** X15 on an ISO date and on a date that starts with a dash. *)
Lemma release_year_before_first_dash_example :
  release_year (Some "2021-10-22") = "2021"
  /\ release_year (Some "-2021") = "".
Proof.
  split.
  - exact (proj1 (release_year_before_first_dash "2021" "10-22" eq_refl)).
  - exact (proj1 (release_year_before_first_dash "" "2021" eq_refl)).
Defined.

Lemma poster_addresses_differ (path : option string) :
  (Appwrite.image_prefix ++ template_of_nullable path)%string
  <> poster_src path.
Proof.
  unfold poster_src, Appwrite.image_prefix.
  destruct path as [p|]; cbn [nullable truthy template_of_nullable].
  - destruct (p =? "")%string eqn:E; cbn [negb].
    + cbn. discriminate.
    + change ("https://image.tmdb.org/t/p/w500/" ++ p)%string
        with ("https://image.tmdb.org/t/p/w500" ++ String "/" p)%string.
      intros H. apply string_app_inv in H.
      apply (f_equal String.length) in H. cbn in H. lia.
  - cbn. discriminate.
Qed.

(** X16. The image address stored for the trending section is never the
    one the card of the same movie shows. For a poster path [p] the card
    asks for [.../w500/p] and the store keeps [.../w500p]; for a movie
    without poster the card falls back to "/no-movie.png" while the store
    keeps an address that ends in "w500null". *)
Theorem stored_poster_differs_from_card env w term movie :
  store_up env ->
  (forall d, In d (db w) -> searchTerm d <> term) ->
  exists d,
    db (exec (Appwrite.updateSearchCount term movie) env w) = (db w ++ [d])%list
    /\ poster_url d <> poster_src (poster_path movie)
    /\ match poster_path movie with
       | Some p =>
           poster_url d = ("https://image.tmdb.org/t/p/w500" ++ p)%string
           /\ (p <> ""%string ->
               poster_src (Some p)
               = ("https://image.tmdb.org/t/p/w500/" ++ p)%string)
       | None =>
           poster_url d = "https://image.tmdb.org/t/p/w500null"%string
           /\ poster_src None = "/no-movie.png"%string
       end.
Proof.
  intros Hup Hnone.
  exists (mkDocument (Appwrite.unique_id (db w)) term 1 (id movie)
            (Appwrite.image_prefix
             ++ template_of_nullable (poster_path movie))%string).
  split.
  - rewrite updateSearchCount_leaves. unfold upserted, request_fails.
    rewrite (select_equal_none term (db w) Hnone), !Hup. reflexivity.
  - cbn [poster_url]. split; [apply poster_addresses_differ|].
    destruct (poster_path movie) as [p|]; [|split; reflexivity].
    split; [reflexivity|].
    intros Hp. unfold poster_src. cbn [nullable truthy template_of_nullable].
    apply truthy_string in Hp. cbn [truthy] in Hp. now rewrite Hp.
Qed.

(** X16 for a movie with a poster, first searched on an empty store. *)
Lemma stored_poster_differs_from_card_example :
  exists d,
    db (exec (Appwrite.updateSearchCount "dune" Sample.dune)
             (Sample.env_up FetchRejected) (Sample.world_of [])) = [d]
    /\ poster_url d = "https://image.tmdb.org/t/p/w500/abc.jpg"%string
    /\ poster_src (poster_path Sample.dune)
       = "https://image.tmdb.org/t/p/w500//abc.jpg"%string.
Proof.
  destruct (stored_poster_differs_from_card (Sample.env_up FetchRejected)
              (Sample.world_of []) "dune" Sample.dune
              (fun op => eq_refl) (fun d (H : In d []) => False_ind _ H))
    as (d & Hd & _ & Hu & _).
  exists d. split; [exact Hd|]. split; [exact Hu | reflexivity].
Defined.

End Card.

(** ** The mounted component: the first render and slow typing *)

Section Mounted.

Import Session Scenario.

#[local] Open Scope list_scope.
#[local] Open Scope Z_scope.

Implicit Types (a : Mounted) (edits rest : list (Z * string)).




(** The timeout changes the settled term, never the raw one. *)
Lemma fire_raw env d a : raw (fire env d a) = raw a.
Proof.
  unfold fire, raw. cbn [world].
  destruct (rawSearchTerm (ui (world a)) =? debouncedSearchTerm (ui (world a)))%string;
    [reflexivity|].
  set (v := rawSearchTerm (ui (world a))).
  assert (X : exec (setDebouncedSearchTerm v ;; App.search_effect) env (world a)
              = exec (App.fetchMovies v) env
                     (exec (setDebouncedSearchTerm v) env (world a)))
    by reflexivity.
  rewrite X, fetchMovies_ui. reflexivity.
Qed.

(** Edits that each wait for the window of the one before: every value is
    propagated and queried. *)
Lemma slow_edits_settle env rest :
  forall a t stop,
    timer a = Some (t + debounce_ms) ->
    (raw a =? settledTerm a)%string = false ->
    slow t rest = true ->
    changes (raw a) rest = true ->
    last (map fst rest) t + debounce_ms <= stop ->
    let a' := run env a rest stop in
    propagated a'
    = propagated a
      ++ (t + debounce_ms, raw a)
         :: map (fun e => (fst e + debounce_ms, snd e)) rest
    /\ fetched (history (world a'))
       = fetched (history (world a))
         ++ App.endpoint_of (raw a)
            :: map (fun e => App.endpoint_of (snd e)) rest
    /\ settledTerm a' = last (map snd rest) (raw a)
    /\ timer a' = None.
Proof.
  induction rest as [|[t' v'] rest IH]; intros a t stop Ht Hne Hs Hc Hstop.
  - cbn [map last] in *. unfold run. cbn [fold_left].
    unfold advance. rewrite Ht.
    destruct (Z.leb_spec (t + debounce_ms) stop); [|lia].
    destruct (fire_effect env (t + debounce_ms) a) as (F1 & F2 & F3 & F4).
    rewrite Hne in F4. auto.
  - cbn [slow] in Hs. apply andb_prop in Hs as [Hlate Hs].
    apply Z.leb_le in Hlate.
    cbn [changes] in Hc. apply andb_prop in Hc as [Hv Hc].
    apply negb_true_iff in Hv.
    cbn [map fst snd] in *. rewrite last_cons in Hstop. rewrite last_cons.
    unfold run. cbn [fold_left].
    set (a1 := fire env (t + debounce_ms) a).
    assert (E1 : advance env t' a = a1).
    { unfold advance. rewrite Ht.
      destruct (Z.leb_spec (t + debounce_ms) t'); [reflexivity | lia]. }
    destruct (fire_effect env (t + debounce_ms) a) as (F1 & F2 & F3 & F4).
    fold a1 in F1, F2, F3, F4. rewrite Hne in F4.
    assert (R1 : raw a1 = raw a) by apply fire_raw.
    set (a2 := mkMounted (exec (setSearchTerm v') env (world a1))
                         (Some (t' + debounce_ms)) (propagated a1)).
    assert (E2 : input env a (t', v') = a2).
    { unfold input. cbn [fst snd]. rewrite E1. unfold change.
      fold (raw a1). now rewrite R1, Hv. }
    rewrite E2.
    assert (Hne2 : (raw a2 =? settledTerm a2)%string = false).
    { change (raw a2) with v'. change (settledTerm a2) with (settledTerm a1).
      now rewrite F3. }
    specialize (IH a2 t' stop eq_refl Hne2 Hs Hc Hstop).
    unfold run in IH. destruct IH as (I1 & I2 & I3 & I4).
    change (propagated a2) with (propagated a1) in I1.
    change (history (world a2)) with (history (world a1)) in I2.
    change (raw a2) with v' in I1, I2, I3.
    rewrite I1, I2, I3, I4, F1, F4, <- !app_assoc. auto.
Qed.

(** X17. Edits that each change the input and each come at least 500
    units after the one before, from a state with nothing pending and the
    raw term settled: every value is propagated, at the end of its own
    window, and one request is made for each, in the order typed. *)
Theorem slow_typing_queries_each env a t1 v1 rest stop :
  quiet_at t1 a = true ->
  raw a = settledTerm a ->
  changes (raw a) ((t1, v1) :: rest) = true ->
  slow t1 rest = true ->
  last (map fst rest) t1 + debounce_ms <= stop ->
  let a' := run env a ((t1, v1) :: rest) stop in
  propagated a'
  = propagated a
    ++ map (fun e => (fst e + debounce_ms, snd e)) ((t1, v1) :: rest)
  /\ fetched (history (world a'))
     = fetched (history (world a))
       ++ map (fun e => App.endpoint_of (snd e)) ((t1, v1) :: rest)
  /\ settledTerm a' = last (map snd rest) v1.
Proof.
  intros Hq Hset Hc Hs Hstop a'. subst a'.
  cbn [changes] in Hc. apply andb_prop in Hc as [Hv Hc].
  apply negb_true_iff in Hv.
  unfold run. cbn [fold_left]. rewrite (input_rearms env a t1 v1 Hq Hv).
  set (a1 := mkMounted _ _ _).
  assert (Hne : (raw a1 =? settledTerm a1)%string = false).
  { change (raw a1) with v1. change (settledTerm a1) with (settledTerm a).
    now rewrite <- Hset. }
  destruct (slow_edits_settle env rest a1 t1 stop eq_refl Hne Hs Hc Hstop)
    as (I1 & I2 & I3 & _).
  unfold run in I1, I2, I3. cbn [map fst snd]. auto.
Qed.

(** X17 on "du" then "dune" typed a second apart. *)
Lemma slow_typing_queries_each_example :
  let env := Sample.env_up (Sample.ok_with (ResultsArray [Sample.dune])) in
  let a := advance env 600 (mount env []) in
  let a' := run env a [(1000, "du"%string); (2000, "dune"%string)] 3000 in
  propagated a'
  = [(500, ""%string); (1500, "du"%string); (2500, "dune"%string)]
  /\ fetched (history (world a'))
     = ["https://api.themoviedb.org/3/discover/movie?sort_by=popularity.desc";
        "https://api.themoviedb.org/3/search/movie?query=du";
        "https://api.themoviedb.org/3/search/movie?query=dune"]%string.
Proof.
  intros env a a'.
  destruct (slow_typing_queries_each env a 1000 "du"%string
              [(2000, "dune"%string)] 3000 eq_refl eq_refl eq_refl eq_refl
              ltac:(vm_compute; discriminate))
    as (Hp & Hf & _).
  fold a' in Hp, Hf. split; [exact Hp | exact Hf].
Defined.



End Mounted.

(** ** Executions that overlap *)

Section Overlap.

Import Async.

#[local] Open Scope list_scope.

(** Unfolds one execution, whole or in steps, down to the world. *)
Ltac unfold_execution :=
  unfold alone, start, resume, settle, next,
    App.fetchMovies, App.fetchMovies_try, App.fetchMovies_catch, App.fetch,
    App.json, App.record_top_result, Appwrite.updateSearchCount,
    Appwrite.listDocuments, Appwrite.updateDocument, Appwrite.createDocument,
    Appwrite.request, exec, result, bind, ret, throw, try_catch, try_finally,
    get_env, get_world, modify, set_ui, set_db, console_error, observe,
    setMovieList, setErrorMessage, setIsLoading.

(** The steps of an execution, run back to back, are the execution. *)
Lemma alone_is_fetchMovies env w q :
  alone q env w = App.fetchMovies q env w.
Proof.
  unfold_execution. cbn.
  destruct (net env (App.endpoint_of q)) as [|[] [|data]]; cbn;
    try reflexivity.
  destruct (strict_eq_string (Response data) "False"); cbn; try reflexivity.
  destruct q as [|c q]; cbn; try reflexivity.
  destruct (results data) as [| |[|top rest]]; cbn; try reflexivity.
  destruct (db_fails env OpList); cbn; try reflexivity.
  destruct (Appwrite.select _ (db w)) as [|doc more]; cbn.
  - destruct (db_fails env OpCreate); reflexivity.
  - destruct (db_fails env OpUpdate); cbn; try reflexivity.
    destruct (existsb _ (db w)); reflexivity.
Qed.

(** A step never throws. It writes [isLoading] only when it is the last of
    its execution, and then clears it. *)
Lemma resume_loading env p w :
  exists p',
    resume p env w = (exec (resume p) env w, Normal p')
    /\ (if is_settled p' && negb (is_settled p)
        then isLoading (ui (exec (resume p) env w)) = false
        else isLoading (ui (exec (resume p) env w)) = isLoading (ui w)).
Proof.
  destruct p as [q|q body|q top|docId c|term movie|]; unfold_execution; cbn.
  - destruct (net env (App.endpoint_of q)) as [|[] body]; cbn;
      eexists; split; reflexivity.
  - destruct body as [|data]; cbn; [eexists; split; reflexivity|].
    destruct (strict_eq_string (Response data) "False"); cbn;
      [eexists; split; reflexivity|].
    destruct (negb (q =? "")%string); cbn; [|eexists; split; reflexivity].
    destruct (results data) as [| |[|top rest]]; cbn;
      eexists; split; reflexivity.
  - destruct (db_fails env OpList); cbn; [eexists; split; reflexivity|].
    destruct (Appwrite.select _ (db w)) as [|doc more]; cbn;
      eexists; split; reflexivity.
  - destruct (db_fails env OpUpdate); cbn; [eexists; split; reflexivity|].
    destruct (existsb _ (db w)); cbn; eexists; split; reflexivity.
  - destruct (db_fails env OpCreate); cbn; eexists; split; reflexivity.
  - eexists; split; reflexivity.
Qed.

Lemma next_resume env p w :
  fst (next (resume p) env w) = exec (resume p) env w
  /\ (if is_settled (snd (next (resume p) env w)) && negb (is_settled p)
      then isLoading (ui (exec (resume p) env w)) = false
      else isLoading (ui (exec (resume p) env w)) = isLoading (ui w)).
Proof.
  destruct (resume_loading env p w) as (p' & E & H).
  unfold next. rewrite E. cbn. split; [reflexivity | exact H].
Qed.

Lemma forallb_set_nth i p l :
  forallb is_settled (set_nth i p l) = true ->
  (i < length l)%nat -> is_settled p = true.
Proof.
  revert i. induction l as [|q l IH]; intros [|i] H Hi; cbn in *; try lia.
  - now apply andb_prop in H as [H _].
  - apply andb_prop in H as [_ H]. apply (IH i H). lia.
Qed.

Lemma forallb_set_nth_same i p l :
  nth_error l i = Some p ->
  is_settled p = true ->
  forallb is_settled (set_nth i Settled l) = forallb is_settled l.
Proof.
  revert i. induction l as [|q l IH]; intros [|i] H Hp; cbn in *;
    try discriminate.
  - injection H as ->. now rewrite Hp.
  - now rewrite (IH i H Hp).
Qed.

(** Whatever the order of the events, [isLoading] is clear once no
    execution is pending. *)
Lemma play_idle_clear env events :
  forall b,
    (forallb is_settled (snd b) = true -> isLoading (ui (fst b)) = false) ->
    forallb is_settled (snd (play env events b)) = true ->
    isLoading (ui (fst (play env events b))) = false.
Proof.
  induction events as [|e events IH]; intros b Hb; [exact Hb|].
  cbn [play fold_left]. apply IH. clear IH.
  destruct b as [w ts]. cbn [fst snd] in *.
  destruct e as [q|i]; cbn [play1 fst snd].
  - destruct (next (start q) env w) as [w' p] eqn:E. cbn [fst snd].
    intros H. rewrite forallb_app in H. apply andb_prop in H as [_ H].
    revert E. unfold_execution. cbn. intros [= <- <-]. discriminate H.
  - destruct (nth_error ts i) as [p|] eqn:N; [|exact Hb].
    destruct (next_resume env p w) as [E L].
    destruct (next (resume p) env w) as [w' p'] eqn:X. cbn [fst snd] in *.
    subst w'. intros H.
    assert (Hi : (i < length ts)%nat)
      by (apply nth_error_Some; congruence).
    pose proof (forallb_set_nth i p' ts H Hi) as Hp'.
    rewrite Hp' in L. cbn [andb] in L.
    destruct (is_settled p) eqn:Hp; cbn [negb] in L; [|exact L].
    rewrite L. apply Hb.
    destruct p'; try discriminate Hp'.
    now rewrite <- (forallb_set_nth_same i p ts N Hp).
Qed.

Lemma alone_exec env w q :
  exec (alone q) env w = exec (App.fetchMovies q) env w.
Proof. unfold exec. now rewrite alone_is_fetchMovies. Qed.

Lemma alone_result env w q : result (alone q) env w = Normal tt.
Proof.
  unfold result. rewrite alone_is_fetchMovies. apply fetchMovies_result.
Qed.

Lemma alone_during env w q :
  during (alone q) env w
  = Summary.calls q (net env (App.endpoint_of q)) (ui w).
Proof.
  unfold during. rewrite alone_exec. apply fetchMovies_during.
Qed.

Lemma alone_ui env w q :
  ui (exec (alone q) env w)
  = Summary.finished q (net env (App.endpoint_of q)) (ui w).
Proof. rewrite alone_exec. apply fetchMovies_ui. Qed.

(** C6, with the overlap the claim leaves out. An execution of the query
    sets [isLoading] when it starts; none of its steps throws, a step that
    is not its last leaves [isLoading] as it finds it and its last step
    clears it, whatever the answers. Hence an execution that runs with no
    other in flight makes each of its calls with [isLoading] set and ends
    with it clear; and in any order of launches and answers, [isLoading]
    is clear whenever no execution is pending. *)
Theorem fetchMovies_loading_bracket env q w :
  isLoading (ui (exec (Async.start q) env w)) = true
  /\ (forall p w1,
        exists p',
          result (Async.resume p) env w1 = Normal p'
          /\ (if is_settled p' && negb (is_settled p)
              then isLoading (ui (exec (Async.resume p) env w1)) = false
              else isLoading (ui (exec (Async.resume p) env w1))
                   = isLoading (ui w1)))
  /\ (during (Async.alone q) env w <> []
      /\ Forall (fun o => isLoading (obs_ui o) = true)
                (during (Async.alone q) env w)
      /\ result (Async.alone q) env w = Normal tt
      /\ isLoading (ui (exec (Async.alone q) env w)) = false)
  /\ (forall events,
        isLoading (ui w) = false ->
        forallb is_settled (snd (Async.play env events (w, []))) = true ->
        isLoading (ui (fst (Async.play env events (w, [])))) = false).
Proof.
  split; [reflexivity|]. split; [|split].
  - intros p w1. destruct (resume_loading env p w1) as (p' & E & H).
    exists p'. split; [|exact H]. unfold result. now rewrite E.
  - rewrite alone_during, alone_ui, alone_result. unfold Summary.calls.
    repeat split; [discriminate|].
    destruct (Summary.top_result q _) as [[top rest]|]; repeat constructor.
  - intros events Hw. apply play_idle_clear. intros _. exact Hw.
Qed.

(** C6 on two searches whose answers all arrive: the discover query and
    "batman", their steps mixed; once both have ended [isLoading] is
    clear. *)
Lemma fetchMovies_loading_bracket_example :
  let env := Sample.env_up (Sample.ok_with (ResultsArray [Sample.dune])) in
  let events := [Launch ""; Launch "batman"; Deliver 1; Deliver 0; Deliver 1;
                 Deliver 0; Deliver 1; Deliver 1] in
  snd (Async.play env events (Sample.world_of [], [])) = [Settled; Settled]
  /\ isLoading (ui (fst (Async.play env events (Sample.world_of [], []))))
     = false.
Proof.
  intros env events. split; [reflexivity|].
  destruct (fetchMovies_loading_bracket env "" (Sample.world_of []))
    as (_ & _ & _ & H).
  apply (H events); reflexivity.
Defined.

(** C6 as stated fails when executions overlap: "batman" is launched while
    the discover query is in flight, the discover query ends first and
    clears [isLoading] while "batman" still waits for its answer. *)
Lemma overlapping_query_clears_loading :
  let env := Sample.env_up (Sample.ok_with (ResultsArray [Sample.dune])) in
  let b := Async.play env [Launch ""; Launch "batman"; Deliver 0; Deliver 0]
                      (Sample.world_of [], []) in
  snd b = [Settled; AwaitFetch "batman"]
  /\ isLoading (ui (fst b)) = false.
Proof. split; reflexivity. Qed.

(** X8. For an execution of the query that runs with no other in flight:
    when the view after it is a list of movies, the list is the one the
    catalog just returned (empty when the answer had none), not one left
    from an earlier query. *)
Theorem alone_shows_fresh_list env w q l :
  App.all_movies_view (ui (exec (Async.alone q) env w)) = App.ViewMovies l ->
  exists data,
    net env (App.endpoint_of q) = FetchResponse true (BodyJson data)
    /\ strict_eq_string (Response data) "False" = false
    /\ l = App.results_or_empty (results data).
Proof. rewrite alone_exec. apply fetchMovies_shows_fresh_list. Qed.

(** X8 at a world that shows an old list and a catalog that finds none. *)
Lemma alone_shows_fresh_list_example :
  App.all_movies_view
    (ui (exec (Async.alone "zzz")
              (Sample.env_up (Sample.ok_with (ResultsArray [])))
              (Sample.world_showing Sample.dune)))
  = App.ViewMovies []
  /\ exists data,
      Sample.ok_with (ResultsArray []) = FetchResponse true (BodyJson data)
      /\ [] = App.results_or_empty (results data).
Proof.
  split; [reflexivity|].
  destruct (alone_shows_fresh_list
              (Sample.env_up (Sample.ok_with (ResultsArray [])))
              (Sample.world_showing Sample.dune) "zzz" [] eq_refl)
    as (data & Hn & _ & Hl).
  exists data. split; [exact Hn | exact Hl].
Defined.

(** X9. For an execution of the query that runs with no other in flight: a
    success of the catalog with a result list replaces whatever was shown
    before, an error included: the message is cleared, the view is the
    returned list and the spinner is gone. *)
Theorem alone_recovers env w q data movies :
  net env (App.endpoint_of q) = FetchResponse true (BodyJson data) ->
  strict_eq_string (Response data) "False" = false ->
  results data = ResultsArray movies ->
  let u' := ui (exec (Async.alone q) env w) in
  errorMessage u' = JsString ""
  /\ movieList u' = movies
  /\ App.all_movies_view u' = App.ViewMovies movies.
Proof.
  intros Hn F R. rewrite alone_exec. now apply (fetchMovies_recovers env w q data).
Qed.

(** X9 from a world that shows an error. *)
Lemma alone_recovers_example :
  let broken :=
    mkWorld (mkUI "" "" [] (JsString "Error fetching movies. Please try again later.")
                  false (TrendingDocs [])) [] [] [] in
  App.all_movies_view (ui broken)
  = App.ViewError (JsString "Error fetching movies. Please try again later.")
  /\ App.all_movies_view
       (ui (exec (Async.alone "dune")
                 (Sample.env_up (Sample.ok_with (ResultsArray [Sample.dune])))
                 broken))
     = App.ViewMovies [Sample.dune].
Proof.
  intros broken. split; [reflexivity|].
  destruct (alone_recovers
              (Sample.env_up (Sample.ok_with (ResultsArray [Sample.dune])))
              broken "dune"
              (mkPayload JsUndefined JsUndefined (ResultsArray [Sample.dune]))
              [Sample.dune] eq_refl eq_refl eq_refl) as (_ & _ & Hv).
  exact Hv.
Defined.

(** X10. For executions of the query that run with no other in flight: the
    cells after one depend on the cells before and on the answer of the
    catalog only; neither the content of the store nor the failure of its
    requests shows in them. *)
Theorem alone_ui_ignores_store env1 env2 w1 w2 q :
  net env1 (App.endpoint_of q) = net env2 (App.endpoint_of q) ->
  ui w1 = ui w2 ->
  ui (exec (Async.alone q) env1 w1) = ui (exec (Async.alone q) env2 w2).
Proof. intros Hn Hu. rewrite !alone_ui, Hn, Hu. reflexivity. Qed.

(** X10 with a store that is up and empty and one that is down and full. *)
Lemma alone_ui_ignores_store_example :
  ui (exec (Async.alone "dune")
           (Sample.env_up (Sample.ok_with (ResultsArray [Sample.dune])))
           (Sample.world_of []))
  = ui (exec (Async.alone "dune")
             (Sample.env_store_down (Sample.ok_with (ResultsArray [Sample.dune])))
             (Sample.world_of Sample.five_terms)).
Proof.
  exact (alone_ui_ignores_store
           (Sample.env_up (Sample.ok_with (ResultsArray [Sample.dune])))
           (Sample.env_store_down (Sample.ok_with (ResultsArray [Sample.dune])))
           (Sample.world_of []) (Sample.world_of Sample.five_terms) "dune"
           eq_refl eq_refl).
Defined.

End Overlap.
